(** * Frame height synchronizer (docs/js/custom.js)

    A shallow embedding of the script and of the part of the browser it
    talks to: inline frames with their inner windows, event listeners on
    those windows, and mutation observers registered on [document.body].

    JavaScript code is embedded in a state-and-exception monad over the
    page: a thrown exception keeps every write made before it, as in
    JavaScript. *)

From stdpp Require Import base option list gmap strings.
From Stdlib Require Import ZArith Lia.

Local Open Scope Z_scope.

(** ** The page *)

(** A live reference to an [HTMLIFrameElement]. *)
Definition frame_id := nat.

(** The function object made by one evaluation of [() => resizeIframe(e)]:
    its identity and the [e] it closes over. *)
Record Closure := { closure_id : nat; captured_e : frame_id }.

(** An entry of an event target's listener list. *)
Record EventListener := {
  type : string;
  callback : Closure;
  capture : bool;
  passive : bool;
  once : bool
}.

(** What reading [contentWindow.document] gives: a security error for a
    cross-origin frame, otherwise a document whose [body] is [null]
    ([None]) or has the given [scrollHeight]. *)
Inductive DocumentAccess :=
| CrossOrigin
| Document (body : option Z).

Record Window := {
  document : DocumentAccess;
  listeners : list EventListener
}.

(** [height] is the number last assigned to the element's height ([None]:
    no numeric height); [contentWindow] is [null] ([None]) for a frame
    without a browsing context. [scrollHeight] is a 32-bit integer, so
    adding 100 to it is exact in JavaScript's numbers. *)
Record HTMLIFrameElement := {
  height : option Z;
  contentWindow : option Window
}.

(** The dictionary passed to [observe]; [None] is an absent member. *)
Record MutationObserverInit := {
  childList : option bool;
  attributes : option bool;
  characterData : option bool;
  subtree : option bool;
  attributeOldValue : option bool;
  characterDataOldValue : option bool;
  attributeFilter : option (list string)
}.

Inductive MutationType :=
| ChildListRecord
| AttributesRecord (name : string)
| CharacterDataRecord.

(** Where the target of a mutation record lies relative to
    [document.body], the only node the script observes. *)
Inductive Where := AtBody | BelowBody | OutsideBody.

Record MutationRecord := { mtype : MutationType; target : Where }.

(** A [MutationObserver] whose callback is the script's. [registration]
    is its entry in the registered observer list of [document.body]
    ([None] before [observe]); [queue] is its record queue. *)
Record MutationObserver := {
  registration : option MutationObserverInit;
  queue : list MutationRecord
}.

Record Page := {
  heap : gmap frame_id HTMLIFrameElement;
  iframes : list frame_id;  (* document.querySelectorAll("iframe"), in document order *)
  observers : list MutationObserver;
  next_closure : nat
}.

#[global] Instance Closure_eq_dec : EqDecision Closure.
Proof. solve_decision. Defined.
#[global] Instance EventListener_eq_dec : EqDecision EventListener.
Proof. solve_decision. Defined.
#[global] Instance MutationType_eq_dec : EqDecision MutationType.
Proof. solve_decision. Defined.
#[global] Instance Where_eq_dec : EqDecision Where.
Proof. solve_decision. Defined.

(** ** Reading a page *)

Definition window_of (σ : Page) (e : frame_id) : option Window :=
  heap σ !! e ≫= contentWindow.

Definition listeners_of (σ : Page) (e : frame_id) : list EventListener :=
  from_option listeners [] (window_of σ e).

Definition height_of (σ : Page) (e : frame_id) : option Z :=
  heap σ !! e ≫= height.

(** The inner body's scroll height, when the script can read it. *)
Definition scrollHeight_of (σ : Page) (e : frame_id) : option Z :=
  w ← window_of σ e;
  match document w with
  | Document (Some h) => Some h
  | _ => None
  end.

(** ** Updating a page *)

Definition with_heap (h : gmap frame_id HTMLIFrameElement) (σ : Page) : Page :=
  {| heap := h; iframes := iframes σ; observers := observers σ;
     next_closure := next_closure σ |}.

Definition with_iframes (l : list frame_id) (σ : Page) : Page :=
  {| heap := heap σ; iframes := l; observers := observers σ;
     next_closure := next_closure σ |}.

Definition with_observers (os : list MutationObserver) (σ : Page) : Page :=
  {| heap := heap σ; iframes := iframes σ; observers := os;
     next_closure := next_closure σ |}.

Definition with_next_closure (n : nat) (σ : Page) : Page :=
  {| heap := heap σ; iframes := iframes σ; observers := observers σ;
     next_closure := n |}.

Definition with_height (v : option Z) (fr : HTMLIFrameElement) : HTMLIFrameElement :=
  {| height := v; contentWindow := contentWindow fr |}.

Definition with_contentWindow (w : option Window) (fr : HTMLIFrameElement)
  : HTMLIFrameElement :=
  {| height := height fr; contentWindow := w |}.

Definition with_listeners (ls : list EventListener) (w : Window) : Window :=
  {| document := document w; listeners := ls |}.

Definition with_document (d : DocumentAccess) (w : Window) : Window :=
  {| document := d; listeners := listeners w |}.

Definition with_queue (q : list MutationRecord) (o : MutationObserver)
  : MutationObserver :=
  {| registration := registration o; queue := q |}.

(** ** Mutation observers, after the DOM standard *)

Definition is_true_member (o : option bool) : bool := default false o.

(** The first steps of [observe(target, options)]: [attributes] and
    [characterData] default to true only when one of their companion
    members is present. *)
Definition normalize (o : MutationObserverInit) : MutationObserverInit :=
  {| childList := childList o;
     attributes :=
       match attributes o with
       | Some b => Some b
       | None =>
           if bool_decide (is_Some (attributeOldValue o))
              || bool_decide (is_Some (attributeFilter o))
           then Some true else None
       end;
     characterData :=
       match characterData o with
       | Some b => Some b
       | None =>
           if bool_decide (is_Some (characterDataOldValue o))
           then Some true else None
       end;
     subtree := subtree o;
     attributeOldValue := attributeOldValue o;
     characterDataOldValue := characterDataOldValue o;
     attributeFilter := attributeFilter o |}.

(** The option sets [observe] rejects with a [TypeError]. *)
Definition acceptable (o : MutationObserverInit) : bool :=
  (is_true_member (childList o) || is_true_member (attributes o)
   || is_true_member (characterData o))
  && negb (is_true_member (attributeOldValue o)
           && negb (is_true_member (attributes o)))
  && negb (bool_decide (is_Some (attributeFilter o))
           && negb (is_true_member (attributes o)))
  && negb (is_true_member (characterDataOldValue o)
           && negb (is_true_member (characterData o))).

(** "Queue a mutation record", for an observer registered on
    [document.body] with options [o]: the body has to be an inclusive
    ancestor of the target, a proper ancestor only counts with
    [subtree], and the record's type has to be asked for. *)
Definition interested (o : MutationObserverInit) (r : MutationRecord) : bool :=
  match target r with
  | OutsideBody => false
  | AtBody => true
  | BelowBody => is_true_member (subtree o)
  end
  && match mtype r with
     | ChildListRecord => is_true_member (childList o)
     | AttributesRecord name =>
         is_true_member (attributes o)
         && match attributeFilter o with
            | Some names => bool_decide (name ∈ names)
            | None => true
            end
     | CharacterDataRecord => is_true_member (characterData o)
     end.

Definition enqueue (r : MutationRecord) (o : MutationObserver) : MutationObserver :=
  match registration o with
  | Some opts => if interested opts r then with_queue (queue o ++ [r]) o else o
  | None => o
  end.

Definition queue_mutation_record (r : MutationRecord) (σ : Page) : Page :=
  with_observers (enqueue r <$> observers σ) σ.

(** ** JavaScript computations *)

Inductive Error := TypeError | SecurityError.

Inductive Completion (A : Type) :=
| Normal (a : A)
| Throw (err : Error).
Arguments Normal {A} a.
Arguments Throw {A} err.

Definition Js (A : Type) : Type := Page → Completion A * Page.

#[global] Instance Js_ret : MRet Js := λ A a σ, (Normal a, σ).

#[global] Instance Js_bind : MBind Js := λ A B f c σ,
  match c σ with
  | (Normal a, σ') => f a σ'
  | (Throw err, σ') => (Throw err, σ')
  end.

Definition throw {A : Type} (err : Error) : Js A := λ σ, (Throw err, σ).

(** [Array.prototype.forEach] / [NodeList.prototype.forEach]: an
    exception from the callback ends the loop. *)
Fixpoint forEach {A : Type} (l : list A) (f : A → Js unit) : Js unit :=
  match l with
  | [] => mret ()
  | x :: l' => f x ;; forEach l' f
  end.

(** References the script holds to parts of a frame. *)
Inductive WindowProxy := WindowOf (e : frame_id).
Inductive DocumentRef := DocumentOf (e : frame_id).
Inductive BodyRef := BodyOf (e : frame_id).

(** [e.contentWindow]. A reference that is not on the heap does not
    occur on a well-formed page; it is read as [undefined]. *)
Definition get_contentWindow (e : frame_id) : Js (option WindowProxy) := λ σ,
  match heap σ !! e with
  | Some fr =>
      match contentWindow fr with
      | Some _ => (Normal (Some (WindowOf e)), σ)
      | None => (Normal None, σ)
      end
  | None => (Throw TypeError, σ)
  end.

(** [w.document]: a [TypeError] on [null], a [SecurityError] across
    origins. *)
Definition get_document (w : option WindowProxy) : Js DocumentRef := λ σ,
  match w with
  | None => (Throw TypeError, σ)
  | Some (WindowOf e) =>
      match window_of σ e with
      | Some win =>
          match document win with
          | CrossOrigin => (Throw SecurityError, σ)
          | Document _ => (Normal (DocumentOf e), σ)
          end
      | None => (Throw TypeError, σ)
      end
  end.

(** [d.body], which may be [null]. *)
Definition get_body (d : DocumentRef) : Js (option BodyRef) := λ σ,
  let 'DocumentOf e := d in
  match window_of σ e with
  | Some win =>
      match document win with
      | Document (Some _) => (Normal (Some (BodyOf e)), σ)
      | Document None => (Normal None, σ)
      | CrossOrigin => (Throw SecurityError, σ)
      end
  | None => (Throw TypeError, σ)
  end.

(** [b.scrollHeight]: a [TypeError] on [null]. *)
Definition get_scrollHeight (b : option BodyRef) : Js Z := λ σ,
  match b with
  | None => (Throw TypeError, σ)
  | Some (BodyOf e) =>
      match scrollHeight_of σ e with
      | Some h => (Normal h, σ)
      | None => (Throw TypeError, σ)
      end
  end.

(** [e.height = v]. The write changes the element's [height] content
    attribute, for which the platform queues an attributes record; the
    element is taken to lie below the body, where observers see most. *)
Definition set_height (e : frame_id) (v : Z) : Js unit := λ σ,
  match heap σ !! e with
  | Some fr =>
      (Normal (),
       queue_mutation_record
         {| mtype := AttributesRecord "height"; target := BelowBody |}
         (with_heap (<[e := with_height (Some v) fr]> (heap σ)) σ))
  | None => (Throw TypeError, σ)
  end.

(** ** The script *)

(** [function resizeIframe(e)]. *)
Definition resizeIframe (e : frame_id) : Js unit :=
  w ← get_contentWindow e;
  d ← get_document w;
  b ← get_body d;
  h ← get_scrollHeight b;
  set_height e (h + 100).

(** Evaluating the arrow function [() => resizeIframe(e)] allocates a
    function object that no earlier evaluation has produced. *)
Definition new_closure (e : frame_id) : Js Closure := λ σ,
  (Normal {| closure_id := next_closure σ; captured_e := e |},
   with_next_closure (S (next_closure σ)) σ).

(** Looking up the method [w.addEventListener], before the arguments of
    the call are evaluated. *)
Definition get_addEventListener (w : option WindowProxy) : Js WindowProxy := λ σ,
  match w with
  | None => (Throw TypeError, σ)
  | Some (WindowOf e) =>
      match window_of σ e with
      | Some win =>
          match document win with
          | CrossOrigin => (Throw SecurityError, σ)
          | Document _ => (Normal (WindowOf e), σ)
          end
      | None => (Throw TypeError, σ)
      end
  end.

Definition same_listener (l1 l2 : EventListener) : bool :=
  bool_decide (type l1 = type l2)
  && bool_decide (closure_id (callback l1) = closure_id (callback l2))
  && bool_decide (capture l1 = capture l2).

(** "Add an event listener": appended unless the list already has a
    listener with the same type, callback and capture flag. *)
Definition add_listener (l : EventListener) (ls : list EventListener)
  : list EventListener :=
  if existsb (same_listener l) ls then ls else ls ++ [l].

Definition addEventListener (w : WindowProxy) (l : EventListener) : Js unit := λ σ,
  let 'WindowOf e := w in
  match heap σ !! e with
  | Some fr =>
      match contentWindow fr with
      | Some win =>
          (Normal (),
           with_heap
             (<[e := with_contentWindow
                       (Some (with_listeners (add_listener l (listeners win)) win))
                       fr]> (heap σ)) σ)
      | None => (Throw TypeError, σ)
      end
  | None => (Throw TypeError, σ)
  end.

(** The listener that [addEventListener("DOMContentLoaded", cb,
    { passive: true })] describes: [capture] and [once] keep their
    default, false. *)
Definition load_listener (cb : Closure) : EventListener :=
  {| type := "DOMContentLoaded"; callback := cb; capture := false;
     passive := true; once := false |}.

Definition querySelectorAll_iframe : Js (list frame_id) := λ σ,
  (Normal (iframes σ), σ).

(** The body of the [forEach] in the observer's callback. *)
Definition scan_frame (e : frame_id) : Js unit :=
  resizeIframe e;;
  w ← get_contentWindow e;
  m ← get_addEventListener w;
  cb ← new_closure e;
  addEventListener m (load_listener cb).

(** The callback given to [new MutationObserver]; it uses neither of its
    arguments. *)
Definition observer_callback (arr_MutationList : list MutationRecord)
    (observer : nat) : Js unit :=
  es ← querySelectorAll_iframe;
  forEach es scan_frame.

(** [new MutationObserver(callback)]: the index of the new observer. *)
Definition new_MutationObserver : Js nat := λ σ,
  (Normal (length (observers σ)),
   with_observers (observers σ ++ [{| registration := None; queue := [] |}]) σ).

(** [obs.observe(document.body, options)]. *)
Definition observe (obs : nat) (options : MutationObserverInit) : Js unit := λ σ,
  let opts := normalize options in
  if acceptable opts then
    match observers σ !! obs with
    | Some o =>
        (Normal (),
         with_observers
           (<[obs := {| registration := Some opts; queue := queue o |}]>
              (observers σ)) σ)
    | None => (Throw TypeError, σ)
    end
  else (Throw TypeError, σ).

(** [{ childList: true, subtree: true }]. *)
Definition script_options : MutationObserverInit :=
  {| childList := Some true; attributes := None; characterData := None;
     subtree := Some true; attributeOldValue := None;
     characterDataOldValue := None; attributeFilter := None |}.

(** The listener the script registers on the host window for
    ["DOMContentLoaded"]. *)
Definition initialize : Js unit :=
  obs ← new_MutationObserver;
  observe obs script_options.

(** ** The event loop *)

(** An exception that leaves a callback is reported by the platform; the
    page keeps the writes made before it. *)
Definition run_callback (c : Js unit) (σ : Page) : Page := (c σ).2.

(** What can happen to the page. The first three are the structural
    mutations of the host document; [at_] tells where the node whose
    children or data change lies. Navigation of a frame, which replaces
    its inner window, is not among the events. *)
Inductive Event :=
| InsertFrame (e : frame_id) (authored : option Z) (d : DocumentAccess) (at_ : Where)
| RemoveFrame (e : frame_id) (at_ : Where)
| ChildListMutation (at_ : Where)
| AttributeMutation (name : string) (at_ : Where)
| CharacterDataMutation (at_ : Where)
| InnerLayout (e : frame_id) (h : Z)
| HostContentLoaded
| FrameContentLoaded (e : frame_id)
| NotifyObservers.

(** A frame inserted into the document gets a new inner window; a frame
    that was on the heap before (removed, now inserted again) keeps its
    height. *)
Definition insert_frame (e : frame_id) (authored : option Z) (d : DocumentAccess)
    (σ : Page) : Page :=
  if bool_decide (e ∈ iframes σ) then σ
  else
    let h := match heap σ !! e with Some fr => height fr | None => authored end in
    with_iframes (iframes σ ++ [e])
      (with_heap
         (<[e := {| height := h;
                    contentWindow := Some {| document := d; listeners := [] |} |}]>
            (heap σ)) σ).

(** A frame removed from the document loses its inner window; the
    element lives on in the closures that captured it. *)
Definition remove_frame (e : frame_id) (σ : Page) : Page :=
  with_iframes (filter (λ x, x ≠ e) (iframes σ))
    (with_heap (alter (with_contentWindow None) e (heap σ)) σ).

(** The inner body's scroll height changes, when there is a body. *)
Definition inner_layout (e : frame_id) (h : Z) (σ : Page) : Page :=
  match heap σ !! e with
  | Some fr =>
      match contentWindow fr with
      | Some win =>
          match document win with
          | Document (Some _) =>
              with_heap
                (<[e := with_contentWindow
                          (Some (with_document (Document (Some h)) win)) fr]>
                   (heap σ)) σ
          | _ => σ
          end
      | None => σ
      end
  | None => σ
  end.

(** Invoking a listener's callback, [() => resizeIframe(e)]. *)
Definition invoke (l : EventListener) : Js unit :=
  resizeIframe (captured_e (callback l)).

(** Removing a listener that was added with [once]. *)
Definition drop_once (e : frame_id) (l : EventListener) (σ : Page) : Page :=
  if once l then
    with_heap
      (alter (λ fr, with_contentWindow
                      ((λ w, with_listeners
                               (filter (λ l', l' ≠ l) (listeners w)) w)
                         <$> contentWindow fr) fr) e (heap σ)) σ
  else σ.

(** Firing ["DOMContentLoaded"] at the inner window of [e]: the
    listeners present when dispatch starts run in the order they were
    added. *)
Definition dispatch_load (e : frame_id) (σ : Page) : Page :=
  foldl (λ σ' l, run_callback (invoke l) (drop_once e l σ')) σ
    (filter (λ l, type l = "DOMContentLoaded") (listeners_of σ e)).

(** The "notify mutation observers" microtask for one observer: with a
    non-empty queue, the queue is taken and the callback is called. *)
Definition notify (i : nat) (σ : Page) : Page :=
  match observers σ !! i with
  | Some o =>
      match queue o with
      | [] => σ
      | records =>
          run_callback (observer_callback records i)
            (with_observers (<[i := with_queue [] o]> (observers σ)) σ)
      end
  | None => σ
  end.

Definition notify_observers (σ : Page) : Page :=
  foldl (λ σ' i, notify i σ') σ (seq 0 (length (observers σ))).

Definition step (ev : Event) (σ : Page) : Page :=
  match ev with
  | InsertFrame e authored d at_ =>
      queue_mutation_record {| mtype := ChildListRecord; target := at_ |}
        (insert_frame e authored d σ)
  | RemoveFrame e at_ =>
      queue_mutation_record {| mtype := ChildListRecord; target := at_ |}
        (remove_frame e σ)
  | ChildListMutation at_ =>
      queue_mutation_record {| mtype := ChildListRecord; target := at_ |} σ
  | AttributeMutation name at_ =>
      queue_mutation_record {| mtype := AttributesRecord name; target := at_ |} σ
  | CharacterDataMutation at_ =>
      queue_mutation_record {| mtype := CharacterDataRecord; target := at_ |} σ
  | InnerLayout e h => inner_layout e h σ
  | HostContentLoaded => run_callback initialize σ
  | FrameContentLoaded e => dispatch_load e σ
  | NotifyObservers => notify_observers σ
  end.

Definition run (evs : list Event) (σ : Page) : Page :=
  foldl (λ σ' ev, step ev σ') σ evs.

(** A document as parsed, before the script has run: no observers, no
    listeners on the frames' windows. *)
Definition parsed (frames : list (frame_id * (option Z * option DocumentAccess)))
  : Page :=
  {| heap :=
       list_to_map
         (prod_map id
            (λ p, {| height := p.1;
                     contentWindow :=
                       (λ d, {| document := d; listeners := [] |}) <$> p.2 |})
            <$> frames);
     iframes := remove_dups (frames.*1);
     observers := [];
     next_closure := 0 |}.

(** ** Pages after a call, written out *)

(** The attributes record the platform makes for a write of [height]. *)
Definition height_record : MutationRecord :=
  {| mtype := AttributesRecord "height"; target := BelowBody |}.

(** The page after a successful [resizeIframe(e)] that read [h]. *)
Definition resized (e : frame_id) (fr : HTMLIFrameElement) (h : Z) (σ : Page)
  : Page :=
  queue_mutation_record height_record
    (with_heap (<[e := with_height (Some (h + 100)) fr]> (heap σ)) σ).

(** The closure and the listener made by the scan of [e] on [σ]. *)
Definition scan_closure (e : frame_id) (σ : Page) : Closure :=
  {| closure_id := next_closure σ; captured_e := e |}.

(** The page after [scan_frame e] on a readable frame. *)
Definition scanned (e : frame_id) (fr : HTMLIFrameElement) (w : Window) (h : Z)
    (σ : Page) : Page :=
  with_heap
    (<[e := {| height := Some (h + 100);
               contentWindow :=
                 Some (with_listeners
                         (add_listener (load_listener (scan_closure e σ))
                            (listeners w)) w) |}]> (heap σ))
    (with_next_closure (S (next_closure σ))
       (queue_mutation_record height_record σ)).

(** ** Invariants of the pages the script produces *)

(** A listener on the inner window of [e] is one the script made for
    [e], by a closure allocated before [n]. *)
Definition own_listener (n : nat) (e : frame_id) (l : EventListener) : Prop :=
  l = load_listener {| closure_id := closure_id (callback l); captured_e := e |}
  ∧ (closure_id (callback l) < n)%nat.

Definition listeners_ok (σ : Page) : Prop :=
  ∀ e, Forall (own_listener (next_closure σ) e) (listeners_of σ e).

(** Every observer is registered with the script's options. *)
Definition observers_ok (σ : Page) : Prop :=
  Forall (λ o, registration o = Some (normalize script_options)) (observers σ).

(** The observer [initialize] makes. *)
Definition script_observer : MutationObserver :=
  {| registration := Some (normalize script_options); queue := [] |}.

Definition Inv (σ : Page) : Prop :=
  listeners_ok σ ∧ observers_ok σ ∧ NoDup (iframes σ).

(** No mutation record waits for delivery. *)
Definition queues_empty (σ : Page) : Prop :=
  Forall (λ o, queue o = []) (observers σ).

(** The script can read the inner body of every frame of [l]. *)
Definition readable (σ : Page) (l : list frame_id) : Prop :=
  ∀ e, e ∈ l → is_Some (scrollHeight_of σ e).

(** Events that change the structure of the host document. *)
Definition structural (ev : Event) : bool :=
  match ev with
  | InsertFrame _ _ _ _ | RemoveFrame _ _ | ChildListMutation _ => true
  | _ => false
  end.

(** The load-completion event of frame [e]. *)
Definition loads (e : frame_id) (ev : Event) : bool :=
  match ev with
  | FrameContentLoaded e' => bool_decide (e' = e)
  | _ => false
  end.

(** A run with no structural mutation and no load completion of [e]. *)
Definition silent_for (e : frame_id) (evs : list Event) : Prop :=
  Forall (λ ev, structural ev = false ∧ loads e ev = false) evs.

(** ** Example pages and runs *)

(** One same-origin frame whose inner body has scroll height [h]. *)
Definition one_frame (h : Z) : Page :=
  parsed [(0%nat, (None, Some (Document (Some h))))].

(** A frame without an inner window, with an authored height. *)
Definition windowless_frame : Page := parsed [(0%nat, (Some 150, None))].

(** A cross-origin frame followed by a same-origin one. *)
Definition embed_then_local : Page :=
  parsed [(0%nat, (None, Some CrossOrigin));
          (1%nat, (None, Some (Document (Some 300))))].

(** Two same-origin frames. *)
Definition two_local (h0 h1 : Z) : Page :=
  parsed [(0%nat, (None, Some (Document (Some h0))));
          (1%nat, (None, Some (Document (Some h1))))].

(** A node is added below the body and the observers are notified. *)
Definition mutation_batch : list Event :=
  [ChildListMutation BelowBody; NotifyObservers].

(** ** The frame's two states *)

(** The frame's height matches its content: the inner body is readable
    and the height is its scroll height plus the margin. *)
Definition synchronized (σ : Page) (e : frame_id) : Prop :=
  ∃ h, scrollHeight_of σ e = Some h ∧ height_of σ e = Some (h + 100).

(** Events that give frame [e] another inner window or inner layout. *)
Definition touches (e : frame_id) (ev : Event) : bool :=
  match ev with
  | InsertFrame e' _ _ _ | RemoveFrame e' _ | InnerLayout e' _ =>
      bool_decide (e' = e)
  | _ => false
  end.

(** Events that insert frame [e] into the document. *)
Definition inserts (e : frame_id) (ev : Event) : bool :=
  match ev with
  | InsertFrame e' _ _ _ => bool_decide (e' = e)
  | _ => false
  end.

(** Frame [e] is out of the document and has no inner window. *)
Definition detached (σ : Page) (e : frame_id) : Prop :=
  (e ∉ iframes σ) ∧ window_of σ e = None.

(** Two pages with the same frames, document order and closure counter;
    their observers may differ. *)
Definition same_frames (σ1 σ2 : Page) : Prop :=
  heap σ1 = heap σ2 ∧ iframes σ1 = iframes σ2
  ∧ next_closure σ1 = next_closure σ2.

(** Page [σ] shows no trace of the script since page [σ0]: no observer,
    no listener, no closure made, and the frames of [σ0] are still there
    with the heights they had. *)
Definition inert (σ0 σ : Page) : Prop :=
  observers σ = []
  ∧ next_closure σ = next_closure σ0
  ∧ (∀ e, listeners_of σ e = [])
  ∧ (∀ e fr0, heap σ0 !! e = Some fr0 →
       ∃ fr, heap σ !! e = Some fr ∧ height fr = height fr0).

#[global] Instance MutationRecord_eq_dec : EqDecision MutationRecord.
Proof. solve_decision. Defined.

(** The number of observers with a batch waiting for delivery. *)
Definition pending (os : list MutationObserver) : nat :=
  length (filter (λ o, queue o ≠ []) os).

(** ** The host window and the script's top-level statement *)

(** A listener on the host window whose callback is the arrow function
    the script passes at top level; [handler_id] is the identity of that
    function object, its body is [initialize]. *)
Record HandlerListener := {
  handler_type : string;
  handler_id : nat;
  handler_capture : bool;
  handler_passive : bool;
  handler_once : bool
}.

(** The page together with the host window's listeners.
    [content_loaded] tells that the host document's ["DOMContentLoaded"]
    has fired, which the platform does once. *)
Record Host := {
  page : Page;
  window_listeners : list HandlerListener;
  next_handler : nat;
  content_loaded : bool
}.

Definition same_handler (l1 l2 : HandlerListener) : bool :=
  bool_decide (handler_type l1 = handler_type l2)
  && bool_decide (handler_id l1 = handler_id l2)
  && bool_decide (handler_capture l1 = handler_capture l2).

Definition add_handler (l : HandlerListener) (ls : list HandlerListener)
  : list HandlerListener :=
  if existsb (same_handler l) ls then ls else ls ++ [l].

(** The listener [window.addEventListener("DOMContentLoaded", f,
    { passive: true })] describes, for the function object [f]. *)
Definition handler_listener (f : nat) : HandlerListener :=
  {| handler_type := "DOMContentLoaded"; handler_id := f;
     handler_capture := false; handler_passive := true;
     handler_once := false |}.

(** One execution of the script: its only statement evaluates the arrow
    function, a new function object, and adds it to the host window. *)
Definition script (h : Host) : Host :=
  {| page := page h;
     window_listeners :=
       add_handler (handler_listener (next_handler h)) (window_listeners h);
     next_handler := S (next_handler h);
     content_loaded := content_loaded h |}.

(** The host document's ["DOMContentLoaded"]: the listeners of that type
    run in the order they were added, each running the handler's body;
    those added with [once] are removed. *)
Definition fire_content_loaded (h : Host) : Host :=
  if content_loaded h then h
  else
    {| page :=
         foldl (λ σ (_ : HandlerListener), run_callback initialize σ) (page h)
           (filter (λ l, handler_type l = "DOMContentLoaded")
              (window_listeners h));
       window_listeners :=
         filter (λ l, ¬ (handler_type l = "DOMContentLoaded"
                         ∧ handler_once l = true))
           (window_listeners h);
       next_handler := next_handler h;
       content_loaded := true |}.

Inductive HostEvent :=
| ScriptRuns
| Dom (ev : Event).

Definition with_page (σ : Page) (h : Host) : Host :=
  {| page := σ; window_listeners := window_listeners h;
     next_handler := next_handler h; content_loaded := content_loaded h |}.

Definition host_step (hev : HostEvent) (h : Host) : Host :=
  match hev with
  | ScriptRuns => script h
  | Dom HostContentLoaded => fire_content_loaded h
  | Dom ev => with_page (step ev (page h)) h
  end.

Definition host_run (hevs : list HostEvent) (h : Host) : Host :=
  foldl (λ h' hev, host_step hev h') h hevs.

(** A document being parsed, before any script has run. *)
Definition fresh_host (σ : Page) : Host :=
  {| page := σ; window_listeners := []; next_handler := 0;
     content_loaded := false |}.

(** The events of a host run that reach the page once the host
    document's ["DOMContentLoaded"] has fired. *)
Definition page_events (hevs : list HostEvent) : list Event :=
  omap (λ hev, match hev with
               | Dom HostContentLoaded | ScriptRuns => None
               | Dom ev => Some ev
               end) hevs.

(** A same-origin frame whose inner document has no body. *)
Definition bodyless_frame : Page := parsed [(0%nat, (None, Some (Document None)))].

(** * Properties *)

(** ** [resizeIframe] *)

Lemma scrollHeight_of_Some σ e h :
  scrollHeight_of σ e = Some h ↔
  ∃ fr w, heap σ !! e = Some fr ∧ contentWindow fr = Some w
          ∧ document w = Document (Some h).
Proof.
  unfold scrollHeight_of, window_of. split.
  - destruct (heap σ !! e) as [fr|] eqn:Hfr; simpl; [|done].
    destruct (contentWindow fr) as [w|] eqn:Hw; simpl; [|done].
    destruct (document w) as [|[h'|]] eqn:Hd; [done| |done].
    intros [= ->]. eauto.
  - intros (fr & w & -> & Hw & Hd). simpl. rewrite Hw. simpl. by rewrite Hd.
Qed.

Lemma resizeIframe_readable σ e h :
  scrollHeight_of σ e = Some h →
  ∃ fr, heap σ !! e = Some fr ∧ resizeIframe e σ = (Normal (), resized e fr h σ).
Proof.
  intros Hh. pose proof Hh as (fr & w & Hfr & Hw & Hd)%scrollHeight_of_Some.
  exists fr. split; [done|].
  unfold resizeIframe, mbind, Js_bind, get_contentWindow, get_document,
    get_body, get_scrollHeight, set_height, window_of.
  repeat (first [rewrite Hfr | rewrite Hw | rewrite Hd | rewrite Hh]; simpl).
  done.
Qed.

Lemma resizeIframe_unreadable σ e :
  scrollHeight_of σ e = None →
  ∃ err, resizeIframe e σ = (Throw err, σ).
Proof.
  unfold scrollHeight_of, window_of, resizeIframe, mbind, Js_bind,
    get_contentWindow, get_document, get_body, get_scrollHeight, window_of.
  destruct (heap σ !! e) as [fr|] eqn:Hfr; simpl; [|by eauto].
  destruct (contentWindow fr) as [w|] eqn:Hw; simpl; [|by eauto].
  rewrite Hfr. simpl. rewrite Hw. simpl.
  destruct (document w) as [|[h'|]] eqn:Hd; simpl; [by eauto|done|].
  unfold scrollHeight_of, window_of. rewrite Hfr. simpl. rewrite Hw. simpl.
  rewrite Hd. by eauto.
Qed.

(** Case analysis on a call [resizeIframe e σ]: either the scroll height
    is read and the call is replaced by its result, or it throws. *)
Ltac resize_cases σ e :=
  let Hh := fresh "Hh" in
  destruct (scrollHeight_of σ e) as [?h|] eqn:Hh;
  [ destruct (resizeIframe_readable _ _ _ Hh) as (?fr & ?Hfr & ->)
  | destruct (resizeIframe_unreadable _ _ Hh) as (?err & ->) ].

(** A throwing [resizeIframe] leaves the page as it was. *)
Lemma resizeIframe_throw σ e err σ' :
  resizeIframe e σ = (Throw err, σ') → σ' = σ ∧ scrollHeight_of σ e = None.
Proof. resize_cases σ e; [done|by intros [= _ <-]]. Qed.

Lemma heap_queue_mutation_record r σ : heap (queue_mutation_record r σ) = heap σ.
Proof. done. Qed.

Lemma iframes_queue_mutation_record r σ :
  iframes (queue_mutation_record r σ) = iframes σ.
Proof. done. Qed.

Lemma heap_resized e fr h σ :
  heap (resized e fr h σ) = <[e := with_height (Some (h + 100)) fr]> (heap σ).
Proof. done. Qed.

Lemma height_of_resized e fr h σ : height_of (resized e fr h σ) e = Some (h + 100).
Proof. unfold height_of. rewrite heap_resized, lookup_insert_eq. done. Qed.

Lemma height_of_resized_ne e e' fr h σ :
  e ≠ e' → height_of (resized e fr h σ) e' = height_of σ e'.
Proof. intros. unfold height_of. rewrite heap_resized, lookup_insert_ne; done. Qed.

Lemma window_of_resized e e' fr h σ :
  heap σ !! e = Some fr → window_of (resized e fr h σ) e' = window_of σ e'.
Proof.
  intros Hfr. unfold window_of. rewrite heap_resized.
  destruct (decide (e = e')) as [<-|Hne].
  - rewrite lookup_insert_eq, Hfr. done.
  - by rewrite lookup_insert_ne.
Qed.

Lemma scrollHeight_of_resized e e' fr h σ :
  heap σ !! e = Some fr →
  scrollHeight_of (resized e fr h σ) e' = scrollHeight_of σ e'.
Proof. intros. unfold scrollHeight_of. by rewrite window_of_resized. Qed.

Lemma listeners_of_resized e e' fr h σ :
  heap σ !! e = Some fr →
  listeners_of (resized e fr h σ) e' = listeners_of σ e'.
Proof. intros. unfold listeners_of. by rewrite window_of_resized. Qed.

(** [resizeIframe] changes no height but that of its argument, and no
    window at all. *)
Lemma resizeIframe_height_ne σ e e' :
  e ≠ e' → height_of (resizeIframe e σ).2 e' = height_of σ e'.
Proof.
  intros Hne. resize_cases σ e; [by apply height_of_resized_ne|done].
Qed.

Lemma resizeIframe_window σ e e' :
  window_of (resizeIframe e σ).2 e' = window_of σ e'.
Proof. resize_cases σ e; [by apply window_of_resized|done]. Qed.

Lemma resizeIframe_iframes σ e : iframes (resizeIframe e σ).2 = iframes σ.
Proof. by resize_cases σ e. Qed.

Lemma resizeIframe_next_closure σ e :
  next_closure (resizeIframe e σ).2 = next_closure σ.
Proof. by resize_cases σ e. Qed.

(** ** Observers registered by the script *)

Lemma normalize_script_options : normalize script_options = script_options.
Proof. reflexivity. Qed.

(** The script's options ask for child-list records in the body's
    subtree and for nothing else. *)
Lemma interested_script_options r :
  interested (normalize script_options) r = true ↔
  mtype r = ChildListRecord ∧ target r ≠ OutsideBody.
Proof.
  destruct r as [[| name |] []]; simpl; split; try done; intros []; done.
Qed.

Lemma enqueue_ignored r o :
  registration o = Some (normalize script_options) →
  mtype r ≠ ChildListRecord →
  enqueue r o = o.
Proof.
  intros Ho Hr. unfold enqueue. rewrite Ho.
  destruct (interested (normalize script_options) r) eqn:Hi; [|done].
  apply interested_script_options in Hi as [? _]. done.
Qed.

Lemma with_observers_id σ : with_observers (observers σ) σ = σ.
Proof. by destruct σ. Qed.

Lemma queue_mutation_record_ignored r σ :
  observers_ok σ → mtype r ≠ ChildListRecord → queue_mutation_record r σ = σ.
Proof.
  intros Hok Hr. unfold queue_mutation_record.
  assert (enqueue r <$> observers σ = observers σ) as ->;
    [|apply with_observers_id].
  rewrite <- (list_fmap_id (observers σ)) at 2.
  apply Forall_fmap_ext_1. eapply Forall_impl; [exact Hok|].
  intros o Ho. simpl. by apply enqueue_ignored.
Qed.

Lemma registration_enqueue r o : registration (enqueue r o) = registration o.
Proof.
  unfold enqueue. destruct (registration o) as [opts|] eqn:Ho; [|done].
  destruct (interested opts r); done.
Qed.

Lemma observers_ok_queue_mutation_record r σ :
  observers_ok σ → observers_ok (queue_mutation_record r σ).
Proof.
  unfold observers_ok. simpl. intros Hok. apply Forall_fmap.
  eapply Forall_impl; [exact Hok|]. intros o Ho. simpl.
  by rewrite registration_enqueue.
Qed.

Lemma resizeIframe_observers σ e :
  observers_ok σ → observers (resizeIframe e σ).2 = observers σ.
Proof.
  intros Hok. resize_cases σ e; [|done].
  unfold resized. simpl.
  change (enqueue height_record <$> observers σ)
    with (observers (queue_mutation_record height_record σ)).
  by rewrite queue_mutation_record_ignored.
Qed.

(** ** The scan of one frame *)

Lemma bind_Normal {A B : Type} (c : Js A) (f : A → Js B) σ a σ' :
  c σ = (Normal a, σ') → (c ≫= f) σ = f a σ'.
Proof. intros H. unfold mbind, Js_bind. by rewrite H. Qed.

Lemma bind_Throw {A B : Type} (c : Js A) (f : A → Js B) σ err σ' :
  c σ = (Throw err, σ') → (c ≫= f) σ = (Throw err, σ').
Proof. intros H. unfold mbind, Js_bind. by rewrite H. Qed.

Lemma scan_frame_readable σ e h :
  scrollHeight_of σ e = Some h →
  ∃ fr w, heap σ !! e = Some fr ∧ contentWindow fr = Some w
          ∧ scan_frame e σ = (Normal (), scanned e fr w h σ).
Proof.
  intros Hh. pose proof Hh as (fr & w & Hfr & Hw & Hd)%scrollHeight_of_Some.
  destruct (resizeIframe_readable _ _ _ Hh) as (fr' & Hfr' & Hres).
  assert (fr' = fr) as -> by congruence.
  exists fr, w. repeat split; [done..|].
  unfold scan_frame. erewrite bind_Normal by exact Hres.
  assert (heap (resized e fr h σ) !! e = Some (with_height (Some (h + 100)) fr))
    as Hfr1 by (rewrite heap_resized; apply lookup_insert_eq).
  erewrite bind_Normal; last first.
  { unfold get_contentWindow. rewrite Hfr1. simpl. rewrite Hw. done. }
  erewrite bind_Normal; last first.
  { unfold get_addEventListener, window_of. rewrite Hfr1. simpl. rewrite Hw.
    simpl. rewrite Hd. done. }
  erewrite bind_Normal by done.
  unfold addEventListener. simpl. rewrite lookup_insert_eq. simpl. rewrite Hw.
  unfold scanned, with_heap, scan_closure. simpl. rewrite insert_insert_eq. done.
Qed.

Lemma scan_frame_unreadable σ e :
  scrollHeight_of σ e = None → ∃ err, scan_frame e σ = (Throw err, σ).
Proof.
  intros Hh. destruct (resizeIframe_unreadable _ _ Hh) as (err & Hres).
  exists err. unfold scan_frame. by erewrite bind_Throw.
Qed.

(** The same case analysis for [scan_frame e σ]. *)
Ltac scan_cases σ e :=
  let Hh := fresh "Hh" in
  destruct (scrollHeight_of σ e) as [?h|] eqn:Hh;
  [ destruct (scan_frame_readable _ _ _ Hh) as (?fr & ?w & ?Hfr & ?Hw & ->)
  | destruct (scan_frame_unreadable _ _ Hh) as (?err & ->) ].

Lemma height_of_scanned e fr w h σ : height_of (scanned e fr w h σ) e = Some (h + 100).
Proof. unfold height_of, scanned. simpl. by rewrite lookup_insert_eq. Qed.

Lemma height_of_scanned_ne e e' fr w h σ :
  e ≠ e' → height_of (scanned e fr w h σ) e' = height_of σ e'.
Proof. intros. unfold height_of, scanned. simpl. by rewrite lookup_insert_ne. Qed.

Lemma window_of_scanned e fr w h σ :
  window_of (scanned e fr w h σ) e =
  Some (with_listeners
          (add_listener (load_listener (scan_closure e σ)) (listeners w)) w).
Proof. unfold window_of, scanned. simpl. by rewrite lookup_insert_eq. Qed.

Lemma window_of_scanned_ne e e' fr w h σ :
  e ≠ e' → window_of (scanned e fr w h σ) e' = window_of σ e'.
Proof. intros. unfold window_of, scanned. simpl. by rewrite lookup_insert_ne. Qed.

Lemma scrollHeight_of_scanned e e' fr w h σ :
  heap σ !! e = Some fr → contentWindow fr = Some w →
  scrollHeight_of (scanned e fr w h σ) e' = scrollHeight_of σ e'.
Proof.
  intros Hfr Hw. unfold scrollHeight_of.
  destruct (decide (e = e')) as [<-|Hne].
  - rewrite window_of_scanned. unfold window_of. rewrite Hfr. simpl.
    rewrite Hw. done.
  - by rewrite window_of_scanned_ne.
Qed.

(** Whatever its outcome, the scan of [e] leaves the other frames'
    heights and every scroll height alone. *)
Lemma scan_frame_height_ne σ e e' :
  e ≠ e' → height_of (scan_frame e σ).2 e' = height_of σ e'.
Proof.
  intros Hne. scan_cases σ e; [by apply height_of_scanned_ne|done].
Qed.

Lemma scan_frame_scrollHeight σ e e' :
  scrollHeight_of (scan_frame e σ).2 e' = scrollHeight_of σ e'.
Proof. scan_cases σ e; [by apply scrollHeight_of_scanned|done]. Qed.

Lemma scan_frame_iframes σ e : iframes (scan_frame e σ).2 = iframes σ.
Proof. by scan_cases σ e. Qed.

Lemma scan_frame_observers σ e :
  observers_ok σ → observers (scan_frame e σ).2 = observers σ.
Proof.
  intros Hok. scan_cases σ e; [|done].
  unfold scanned. simpl.
  change (enqueue height_record <$> observers σ)
    with (observers (queue_mutation_record height_record σ)).
  by rewrite queue_mutation_record_ignored.
Qed.

(** A closure allocated now is not the callback of any listener made
    before, so the new listener is appended. *)
Lemma add_listener_fresh n e e' ls :
  Forall (own_listener n e') ls →
  add_listener (load_listener {| closure_id := n; captured_e := e |}) ls
  = ls ++ [load_listener {| closure_id := n; captured_e := e |}].
Proof.
  intros Hls. unfold add_listener.
  destruct (existsb _ ls) eqn:Hex; [|done].
  apply existsb_exists in Hex as (l & Hl & Hsame).
  rewrite Forall_forall in Hls. apply list_elem_of_In, Hls in Hl as [_ Hlt].
  unfold same_listener in Hsame. simpl in Hsame.
  apply andb_prop in Hsame as [Hsame _]. apply andb_prop in Hsame as [_ Hid].
  apply bool_decide_eq_true in Hid. lia.
Qed.

Lemma own_listener_mono n n' e l :
  (n ≤ n')%nat → own_listener n e l → own_listener n' e l.
Proof. intros Hle [? ?]. split; [done|lia]. Qed.

Lemma listeners_of_scanned e fr w h σ :
  listeners_ok σ → heap σ !! e = Some fr → contentWindow fr = Some w →
  listeners_of (scanned e fr w h σ) e
  = listeners_of σ e ++ [load_listener (scan_closure e σ)].
Proof.
  intros Hok Hfr Hw. unfold listeners_of at 1. rewrite window_of_scanned. simpl.
  assert (listeners_of σ e = listeners w) as Hls.
  { unfold listeners_of, window_of. rewrite Hfr. simpl. by rewrite Hw. }
  rewrite Hls. eapply add_listener_fresh. rewrite <- Hls. apply Hok.
Qed.

Lemma listeners_of_scanned_ne e e' fr w h σ :
  e ≠ e' → listeners_of (scanned e fr w h σ) e' = listeners_of σ e'.
Proof. intros. unfold listeners_of. by rewrite window_of_scanned_ne. Qed.

Lemma listeners_ok_scanned e fr w h σ :
  listeners_ok σ → heap σ !! e = Some fr → contentWindow fr = Some w →
  listeners_ok (scanned e fr w h σ).
Proof.
  intros Hok Hfr Hw e'. simpl. destruct (decide (e = e')) as [<-|Hne].
  - rewrite listeners_of_scanned by done. apply Forall_app. split.
    + eapply Forall_impl; [apply Hok|]. intros l. apply own_listener_mono. lia.
    + apply Forall_singleton. split; simpl; [done|lia].
  - rewrite listeners_of_scanned_ne by done.
    eapply Forall_impl; [apply Hok|]. intros l. apply own_listener_mono. lia.
Qed.

Lemma scan_frame_listeners_ok σ e :
  listeners_ok σ → listeners_ok (scan_frame e σ).2.
Proof.
  intros Hok. scan_cases σ e; [by apply listeners_ok_scanned|done].
Qed.

Lemma scan_frame_observers_ok σ e :
  observers_ok σ → observers_ok (scan_frame e σ).2.
Proof. intros Hok. unfold observers_ok. by rewrite scan_frame_observers. Qed.

Lemma scan_frame_listeners_ne σ e e' :
  e ≠ e' → listeners_of (scan_frame e σ).2 e' = listeners_of σ e'.
Proof.
  intros Hne. scan_cases σ e; [by apply listeners_of_scanned_ne|done].
Qed.

Lemma scan_frame_next_closure σ e :
  (next_closure σ ≤ next_closure (scan_frame e σ).2)%nat.
Proof. scan_cases σ e; [simpl; lia|done]. Qed.

(** ** The scan of the document *)

Lemma forEach_app {A : Type} (l1 l2 : list A) (f : A → Js unit) σ :
  forEach (l1 ++ l2) f σ =
  match forEach l1 f σ with
  | (Normal _, σ') => forEach l2 f σ'
  | (Throw err, σ') => (Throw err, σ')
  end.
Proof.
  revert σ. induction l1 as [|x l1 IH]; intros σ; [done|].
  simpl. unfold mbind, Js_bind. destruct (f x σ) as [[[]|err] σ1]; [|done].
  apply IH.
Qed.

Lemma forEach_preserves {A : Type} (P : Page → Prop) (l : list A)
    (f : A → Js unit) σ :
  (∀ x σ', P σ' → P (f x σ').2) → P σ → P (forEach l f σ).2.
Proof.
  intros Hf. revert σ. induction l as [|x l IH]; intros σ Hσ; [done|].
  simpl. unfold mbind, Js_bind. specialize (Hf x σ Hσ).
  destruct (f x σ) as [[[]|err] σ1]; simpl in *; [by apply IH|done].
Qed.

(** A property of the page that each call of the loop body keeps,
    stated as an equation on an observation [g]. *)
Lemma forEach_unchanged {A B : Type} (g : Page → B) (P : A → Prop)
    (l : list A) (f : A → Js unit) σ :
  (∀ x σ', P x → g (f x σ').2 = g σ') →
  Forall P l → g (forEach l f σ).2 = g σ.
Proof.
  intros Hf Hl. revert σ. induction Hl as [|x l Hx Hl IH]; intros σ; [done|].
  simpl. unfold mbind, Js_bind. specialize (Hf x σ Hx).
  destruct (f x σ) as [[[]|err] σ1]; simpl in *; [|done].
  by rewrite IH.
Qed.

Lemma forEach_scan_height_notin l σ e :
  e ∉ l → height_of (forEach l scan_frame σ).2 e = height_of σ e.
Proof.
  intros Hl. apply (forEach_unchanged (λ σ, height_of σ e) (λ x, x ≠ e)).
  - intros x σ' Hx. by apply scan_frame_height_ne.
  - apply Forall_forall. intros x Hx ->. done.
Qed.

Lemma forEach_scan_listeners_notin l σ e :
  e ∉ l → listeners_of (forEach l scan_frame σ).2 e = listeners_of σ e.
Proof.
  intros Hl. apply (forEach_unchanged (λ σ, listeners_of σ e) (λ x, x ≠ e)).
  - intros x σ' Hx. by apply scan_frame_listeners_ne.
  - apply Forall_forall. intros x Hx ->. done.
Qed.

Lemma forEach_scan_scrollHeight l σ e :
  scrollHeight_of (forEach l scan_frame σ).2 e = scrollHeight_of σ e.
Proof.
  apply (forEach_unchanged (λ σ, scrollHeight_of σ e) (λ _, True)).
  - intros x σ' _. apply scan_frame_scrollHeight.
  - by apply Forall_true.
Qed.

Lemma forEach_scan_iframes l σ : iframes (forEach l scan_frame σ).2 = iframes σ.
Proof.
  apply (forEach_unchanged iframes (λ _, True)).
  - intros x σ' _. apply scan_frame_iframes.
  - by apply Forall_true.
Qed.

Lemma forEach_scan_observers l σ :
  observers_ok σ → observers (forEach l scan_frame σ).2 = observers σ.
Proof.
  intros Hok.
  cut (observers_ok (forEach l scan_frame σ).2
       ∧ observers (forEach l scan_frame σ).2 = observers σ); [by intros []|].
  apply (forEach_preserves
           (λ σ', observers_ok σ' ∧ observers σ' = observers σ)); [|done].
  intros x σ' [Hok' Heq]. split; [by apply scan_frame_observers_ok|].
  by rewrite scan_frame_observers.
Qed.

Lemma readable_scan_frame σ e l : readable σ l → readable (scan_frame e σ).2 l.
Proof. intros Hl x Hx. rewrite scan_frame_scrollHeight. by apply Hl. Qed.

(** With every frame readable, the loop runs to its end. *)
Lemma forEach_scan_normal l σ :
  readable σ l → (forEach l scan_frame σ).1 = Normal ().
Proof.
  revert σ. induction l as [|x l IH]; intros σ Hl; [done|].
  destruct (Hl x) as [h Hh]; [by left|].
  destruct (scan_frame_readable _ _ _ Hh) as (fr & w & _ & _ & Hscan).
  simpl. erewrite bind_Normal by exact Hscan. apply IH.
  replace (scanned x fr w h σ) with (scan_frame x σ).2 by (by rewrite Hscan).
  apply readable_scan_frame. intros z Hz. apply Hl. by right.
Qed.

(** The loop resizes the frames it reaches before the first one it
    cannot read. *)
Lemma forEach_scan_prefix pre rest σ e :
  NoDup (pre ++ rest) → readable σ pre → e ∈ pre →
  height_of (forEach (pre ++ rest) scan_frame σ).2 e
  = (λ h, h + 100) <$> scrollHeight_of σ e.
Proof.
  revert σ. induction pre as [|x pre IH]; intros σ Hnd Hr He.
  { by apply elem_of_nil in He. }
  simpl in Hnd. apply NoDup_cons in Hnd as [Hx Hnd].
  destruct (Hr x) as [h Hh]; [by left|].
  destruct (scan_frame_readable _ _ _ Hh) as (fr & w & Hfr & Hw & Hscan).
  simpl. erewrite bind_Normal by exact Hscan.
  destruct (decide (e = x)) as [->|Hne].
  - rewrite forEach_scan_height_notin by done.
    by rewrite height_of_scanned, Hh.
  - apply elem_of_cons in He as [?|He]; [done|].
    rewrite IH; [|done| |done].
    + by rewrite scrollHeight_of_scanned.
    + intros y Hy. rewrite scrollHeight_of_scanned by done. apply Hr. by right.
Qed.

(** It stops at that frame. *)
Lemma forEach_scan_stop pre x rest σ :
  readable σ pre → scrollHeight_of σ x = None →
  ∃ err, forEach (pre ++ x :: rest) scan_frame σ
         = (Throw err, (forEach pre scan_frame σ).2).
Proof.
  intros Hr Hx. rewrite forEach_app.
  pose proof (forEach_scan_normal _ _ Hr) as Hn.
  pose proof (forEach_scan_scrollHeight pre σ x) as Hs.
  destruct (forEach pre scan_frame σ) as [[[]|err] σ1]; simpl in *; [|done].
  rewrite Hx in Hs. destruct (scan_frame_unreadable _ _ Hs) as (err & Hscan).
  exists err. by erewrite bind_Throw.
Qed.

(** Each frame the loop reaches gets one more listener, made for it by
    a closure of this scan. *)
Lemma forEach_scan_listeners l σ e :
  NoDup l → listeners_ok σ → readable σ l → e ∈ l →
  ∃ k, (next_closure σ ≤ k)%nat
       ∧ listeners_of (forEach l scan_frame σ).2 e
         = listeners_of σ e
           ++ [load_listener {| closure_id := k; captured_e := e |}].
Proof.
  revert σ. induction l as [|x l IH]; intros σ Hnd Hok Hr He.
  { by apply elem_of_nil in He. }
  apply NoDup_cons in Hnd as [Hx Hnd].
  destruct (Hr x) as [h Hh]; [by left|].
  destruct (scan_frame_readable _ _ _ Hh) as (fr & w & Hfr & Hw & Hscan).
  simpl. erewrite bind_Normal by exact Hscan.
  destruct (decide (e = x)) as [->|Hne].
  - exists (next_closure σ). split; [done|].
    rewrite forEach_scan_listeners_notin by done.
    by apply listeners_of_scanned.
  - apply elem_of_cons in He as [?|He]; [done|].
    destruct (IH (scanned x fr w h σ)) as (k & Hk & Hls); [done| | |done|].
    + by apply listeners_ok_scanned.
    + intros y Hy. rewrite scrollHeight_of_scanned by done. apply Hr. by right.
    + exists k. split; [simpl in Hk; lia|].
      rewrite Hls. by rewrite listeners_of_scanned_ne.
Qed.

(** The same for a scan that may end early, for the frames before the
    point where it ends. *)
Lemma forEach_scan_listeners_prefix pre rest σ e :
  NoDup (pre ++ rest) → listeners_ok σ → readable σ pre → e ∈ pre →
  ∃ k, (next_closure σ ≤ k)%nat
       ∧ listeners_of (forEach (pre ++ rest) scan_frame σ).2 e
         = listeners_of σ e
           ++ [load_listener {| closure_id := k; captured_e := e |}].
Proof.
  intros (Hnd & Hdisj & _)%NoDup_app Hok Hr He.
  destruct (forEach_scan_listeners pre σ e) as (k & Hk & Hls); [done..|].
  exists k. split; [done|]. rewrite forEach_app.
  pose proof (forEach_scan_normal _ _ Hr) as Hn.
  destruct (forEach pre scan_frame σ) as [[[]|err] σ1]; simpl in *; [|done].
  rewrite forEach_scan_listeners_notin; [done|]. by apply Hdisj.
Qed.

(** ** Steps of the event loop keep the invariants *)

Lemma listeners_ok_incl σ σ' :
  (∀ e l, l ∈ listeners_of σ' e → l ∈ listeners_of σ e) →
  (next_closure σ ≤ next_closure σ')%nat →
  listeners_ok σ → listeners_ok σ'.
Proof.
  intros Hin Hn Hok e. apply Forall_forall. intros l Hl.
  eapply own_listener_mono; [exact Hn|].
  specialize (Hok e). rewrite Forall_forall in Hok. by apply Hok, Hin.
Qed.

Lemma Inv_queue_mutation_record r σ : Inv σ → Inv (queue_mutation_record r σ).
Proof.
  intros (Hl & Ho & Hnd). split; [|split]; [| |done].
  - by apply (listeners_ok_incl σ).
  - by apply observers_ok_queue_mutation_record.
Qed.

Lemma foldl_preserves {B : Type} (P : Page → Prop) (Q : B → Prop)
    (f : Page → B → Page) (l : list B) σ :
  (∀ σ' x, Q x → P σ' → P (f σ' x)) → Forall Q l → P σ → P (foldl f σ l).
Proof.
  intros Hf Hl. revert σ. induction Hl as [|x l Hx Hl IH]; intros σ Hσ; [done|].
  simpl. apply IH. by apply Hf.
Qed.

Lemma initialize_run σ :
  initialize σ = (Normal (), with_observers (observers σ ++ [script_observer]) σ).
Proof.
  unfold initialize. erewrite bind_Normal by reflexivity.
  unfold observe. simpl. rewrite list_lookup_middle by done.
  rewrite insert_app_r_alt by done. rewrite Nat.sub_diag. done.
Qed.

Lemma Inv_initialize σ : Inv σ → Inv (run_callback initialize σ).
Proof.
  intros (Hl & Ho & Hnd). unfold run_callback. rewrite initialize_run. simpl.
  split; [|split]; [| |done].
  - by apply (listeners_ok_incl σ).
  - apply Forall_app. split; [done|]. by apply Forall_singleton.
Qed.

Lemma listeners_of_insert_frame e authored d σ e' l :
  l ∈ listeners_of (insert_frame e authored d σ) e' → l ∈ listeners_of σ e'.
Proof.
  unfold insert_frame. case_bool_decide; [done|].
  unfold listeners_of, window_of. simpl.
  destruct (decide (e = e')) as [<-|Hne].
  - rewrite lookup_insert_eq. simpl. by intros ?%elem_of_nil.
  - by rewrite lookup_insert_ne.
Qed.

Lemma Inv_insert_frame e authored d σ : Inv σ → Inv (insert_frame e authored d σ).
Proof.
  intros (Hl & Ho & Hnd). split; [|split].
  - apply (listeners_ok_incl σ); [|by unfold insert_frame; case_bool_decide|done].
    apply listeners_of_insert_frame.
  - unfold insert_frame. by case_bool_decide.
  - unfold insert_frame. case_bool_decide as He; [done|]. simpl.
    apply NoDup_app. split; [done|]. split; [|apply NoDup_singleton].
    intros x Hx ->%list_elem_of_singleton. done.
Qed.

Lemma listeners_of_remove_frame e σ e' l :
  l ∈ listeners_of (remove_frame e σ) e' → l ∈ listeners_of σ e'.
Proof.
  unfold remove_frame, listeners_of, window_of. simpl.
  destruct (decide (e = e')) as [<-|Hne].
  - rewrite lookup_alter_eq. destruct (heap σ !! e); simpl; by intros ?%elem_of_nil.
  - by rewrite lookup_alter_ne.
Qed.

Lemma Inv_remove_frame e σ : Inv σ → Inv (remove_frame e σ).
Proof.
  intros (Hl & Ho & Hnd). split; [|split]; [|done|].
  - apply (listeners_ok_incl σ); [|done..]. apply listeners_of_remove_frame.
  - simpl. by apply NoDup_filter.
Qed.

Lemma window_of_inner_layout e h σ e' :
  listeners <$> window_of (inner_layout e h σ) e' = listeners <$> window_of σ e'.
Proof.
  unfold inner_layout.
  destruct (heap σ !! e) as [fr|] eqn:Hfr; [|done].
  destruct (contentWindow fr) as [w|] eqn:Hw; [|done].
  destruct (document w) as [|[h'|]]; [done| |done].
  unfold window_of. simpl. destruct (decide (e = e')) as [<-|Hne].
  - rewrite lookup_insert_eq, Hfr. simpl. by rewrite Hw.
  - by rewrite lookup_insert_ne.
Qed.

Lemma listeners_of_inner_layout e h σ e' :
  listeners_of (inner_layout e h σ) e' = listeners_of σ e'.
Proof.
  unfold listeners_of. pose proof (window_of_inner_layout e h σ e') as H.
  destruct (window_of (inner_layout e h σ) e'), (window_of σ e');
    simpl in *; congruence.
Qed.

Lemma height_of_inner_layout e h σ e' :
  height_of (inner_layout e h σ) e' = height_of σ e'.
Proof.
  unfold inner_layout.
  destruct (heap σ !! e) as [fr|] eqn:Hfr; [|done].
  destruct (contentWindow fr) as [w|] eqn:Hw; [|done].
  destruct (document w) as [|[h'|]]; [done| |done].
  unfold height_of. simpl. destruct (decide (e = e')) as [<-|Hne].
  - by rewrite lookup_insert_eq, Hfr.
  - by rewrite lookup_insert_ne.
Qed.

Lemma observers_inner_layout e h σ : observers (inner_layout e h σ) = observers σ.
Proof.
  unfold inner_layout.
  destruct (heap σ !! e) as [fr|]; [|done].
  destruct (contentWindow fr) as [w|]; [|done].
  destruct (document w) as [|[h'|]]; done.
Qed.

Lemma iframes_inner_layout e h σ : iframes (inner_layout e h σ) = iframes σ.
Proof.
  unfold inner_layout.
  destruct (heap σ !! e) as [fr|]; [|done].
  destruct (contentWindow fr) as [w|]; [|done].
  destruct (document w) as [|[h'|]]; done.
Qed.

Lemma next_closure_inner_layout e h σ :
  next_closure (inner_layout e h σ) = next_closure σ.
Proof.
  unfold inner_layout.
  destruct (heap σ !! e) as [fr|]; [|done].
  destruct (contentWindow fr) as [w|]; [|done].
  destruct (document w) as [|[h'|]]; done.
Qed.

Lemma Inv_inner_layout e h σ : Inv σ → Inv (inner_layout e h σ).
Proof.
  intros (Hl & Ho & Hnd). split; [|split].
  - apply (listeners_ok_incl σ); [| |done].
    + intros e' l. by rewrite listeners_of_inner_layout.
    + by rewrite next_closure_inner_layout.
  - unfold observers_ok. by rewrite observers_inner_layout.
  - by rewrite iframes_inner_layout.
Qed.

Lemma Inv_resizeIframe e σ : Inv σ → Inv (resizeIframe e σ).2.
Proof.
  intros (Hl & Ho & Hnd). split; [|split].
  - apply (listeners_ok_incl σ); [| |done].
    + intros e' l. unfold listeners_of. by rewrite resizeIframe_window.
    + by rewrite resizeIframe_next_closure.
  - unfold observers_ok. by rewrite resizeIframe_observers.
  - by rewrite resizeIframe_iframes.
Qed.

Lemma Inv_scan_frame e σ : Inv σ → Inv (scan_frame e σ).2.
Proof.
  intros (Hl & Ho & Hnd). split; [|split].
  - by apply scan_frame_listeners_ok.
  - by apply scan_frame_observers_ok.
  - by rewrite scan_frame_iframes.
Qed.

Lemma listeners_of_drop_once e l0 σ e' l :
  l ∈ listeners_of (drop_once e l0 σ) e' → l ∈ listeners_of σ e'.
Proof.
  unfold drop_once. destruct (once l0); [|done].
  unfold listeners_of, window_of. simpl.
  destruct (decide (e = e')) as [<-|Hne].
  - rewrite lookup_alter_eq. destruct (heap σ !! e) as [fr|]; simpl; [|done].
    destruct (contentWindow fr) as [w|]; simpl; [|done].
    by intros [_ ?]%list_elem_of_filter.
  - by rewrite lookup_alter_ne.
Qed.

Lemma height_of_drop_once e l0 σ e' :
  height_of (drop_once e l0 σ) e' = height_of σ e'.
Proof.
  unfold drop_once. destruct (once l0); [|done].
  unfold height_of. simpl. destruct (decide (e = e')) as [<-|Hne].
  - rewrite lookup_alter_eq. by destruct (heap σ !! e).
  - by rewrite lookup_alter_ne.
Qed.

Lemma Inv_drop_once e l0 σ : Inv σ → Inv (drop_once e l0 σ).
Proof.
  intros (Hl & Ho & Hnd). split; [|split].
  - apply (listeners_ok_incl σ); [| |done].
    + apply listeners_of_drop_once.
    + unfold drop_once. by destruct (once l0).
  - unfold drop_once. by destruct (once l0).
  - unfold drop_once. by destruct (once l0).
Qed.

Lemma Inv_dispatch_load e σ : Inv σ → Inv (dispatch_load e σ).
Proof.
  intros HI. unfold dispatch_load.
  apply (foldl_preserves Inv (λ _, True)); [|by apply Forall_true|done].
  intros σ' l _ HI'. by apply Inv_resizeIframe, Inv_drop_once.
Qed.

Lemma Inv_observer_callback records i σ :
  Inv σ → Inv (run_callback (observer_callback records i) σ).
Proof.
  intros HI. unfold run_callback, observer_callback.
  erewrite bind_Normal by reflexivity.
  apply (forEach_preserves Inv); [|done]. intros e σ'. apply Inv_scan_frame.
Qed.

Lemma Inv_notify i σ : Inv σ → Inv (notify i σ).
Proof.
  intros HI. unfold notify.
  destruct (observers σ !! i) as [o|] eqn:Hi; [|done].
  destruct (queue o) as [|r q] eqn:Hq; [done|].
  apply Inv_observer_callback. destruct HI as (Hl & Ho & Hnd).
  split; [|split]; [by apply (listeners_ok_incl σ)| |done].
  unfold observers_ok. simpl. apply Forall_insert; [done|]. simpl.
  by apply (Forall_lookup_1 _ _ _ _ Ho Hi).
Qed.

Lemma Inv_notify_observers σ : Inv σ → Inv (notify_observers σ).
Proof.
  intros HI. unfold notify_observers.
  apply (foldl_preserves Inv (λ _, True)); [|by apply Forall_true|done].
  intros σ' i _. apply Inv_notify.
Qed.

Lemma Inv_step ev σ : Inv σ → Inv (step ev σ).
Proof.
  intros HI. destruct ev; simpl.
  - by apply Inv_queue_mutation_record, Inv_insert_frame.
  - by apply Inv_queue_mutation_record, Inv_remove_frame.
  - by apply Inv_queue_mutation_record.
  - by apply Inv_queue_mutation_record.
  - by apply Inv_queue_mutation_record.
  - by apply Inv_inner_layout.
  - by apply Inv_initialize.
  - by apply Inv_dispatch_load.
  - by apply Inv_notify_observers.
Qed.

Lemma Inv_run evs σ : Inv σ → Inv (run evs σ).
Proof.
  intros HI. unfold run.
  apply (foldl_preserves Inv (λ _, True)); [|by apply Forall_true|done].
  intros σ' ev _. apply Inv_step.
Qed.

(** A parsed document satisfies them. *)
Lemma Inv_parsed frames : Inv (parsed frames).
Proof.
  split; [|split].
  - intros e. unfold listeners_of, window_of. simpl.
    destruct (list_to_map _ !! e) as [fr|] eqn:Hfr; simpl; [|by constructor].
    apply elem_of_list_to_map_2, list_elem_of_fmap in Hfr
      as ([e' [a [d|]]] & [= -> ->] & _); simpl; by constructor.
  - by constructor.
  - simpl. apply NoDup_remove_dups.
Qed.

(** ** Delivery of mutation records *)

Lemma notify_batch i o σ :
  observers σ !! i = Some o → queue o ≠ [] →
  notify i σ
  = (forEach (iframes σ) scan_frame
       (with_observers (<[i := with_queue [] o]> (observers σ)) σ)).2.
Proof.
  intros Hi Hq. unfold notify. rewrite Hi.
  destruct (queue o) as [|r q]; [done|].
  unfold run_callback, observer_callback. by erewrite bind_Normal by reflexivity.
Qed.

Lemma notify_quiet i σ : queues_empty σ → notify i σ = σ.
Proof.
  intros Hq. unfold notify. destruct (observers σ !! i) as [o|] eqn:Hi; [|done].
  by rewrite (Forall_lookup_1 _ _ _ _ Hq Hi).
Qed.

Lemma notify_observers_quiet σ : queues_empty σ → notify_observers σ = σ.
Proof.
  intros Hq. unfold notify_observers.
  induction (seq 0 (length (observers σ))) as [|i l IH]; [done|].
  simpl. by rewrite notify_quiet.
Qed.

Lemma with_queue_nil_id o : queue o = [] → with_queue [] o = o.
Proof. destruct o. simpl. by intros ->. Qed.

(** Delivery to observer [i] empties its queue and touches no other
    observer: the callback's writes queue nothing. *)
Lemma observers_notify i o σ :
  observers_ok σ → observers σ !! i = Some o →
  observers (notify i σ) = <[i := with_queue [] o]> (observers σ).
Proof.
  intros Hok Hi. destruct (queue o) as [|r q] eqn:Hq.
  - unfold notify. rewrite Hi, Hq. rewrite with_queue_nil_id by done.
    by rewrite list_insert_id.
  - rewrite (notify_batch i o) by (done || by rewrite Hq).
    rewrite forEach_scan_observers; [done|].
    unfold observers_ok. simpl. apply Forall_insert; [done|]. simpl.
    by apply (Forall_lookup_1 _ _ _ _ Hok Hi).
Qed.

Lemma notify_prefix_empty σ k :
  Inv σ → (k ≤ length (observers σ))%nat →
  let σk := foldl (λ σ' i, notify i σ') σ (seq 0 k) in
  Inv σk ∧ length (observers σk) = length (observers σ)
  ∧ ∀ j o, (j < k)%nat → observers σk !! j = Some o → queue o = [].
Proof.
  intros HI. induction k as [|k IH]; intros Hk.
  { simpl. split; [done|]. split; [done|]. intros j o Hj. lia. }
  cbv zeta in *. rewrite seq_S, foldl_app. simpl.
  destruct IH as (HIk & Hlen & Hempty); [lia|].
  set (σk := foldl (λ σ' i, notify i σ') σ (seq 0 k)) in *.
  destruct (lookup_lt_is_Some_2 (observers σk) k) as [o Ho]; [lia|].
  pose proof (observers_notify k o σk (proj1 (proj2 HIk)) Ho) as Hobs.
  split; [by apply Inv_notify|]. rewrite Hobs.
  split; [by rewrite length_insert|].
  intros j o' Hj. destruct (decide (k = j)) as [<-|Hne].
  - rewrite list_lookup_insert_eq by lia. by intros [= <-].
  - rewrite list_lookup_insert_ne by done. apply Hempty. lia.
Qed.

Lemma queues_empty_notify_observers σ : Inv σ → queues_empty (notify_observers σ).
Proof.
  intros HI. unfold notify_observers.
  destruct (notify_prefix_empty σ (length (observers σ)) HI) as (_ & Hlen & He);
    [done|].
  apply Forall_lookup_2. intros j o Ho. apply (He j); [|done].
  rewrite <- Hlen. by apply lookup_lt_is_Some_1.
Qed.

(** ** Runs without structural mutations *)

Lemma own_listener_captured n e l : own_listener n e l → captured_e (callback l) = e.
Proof. intros [-> _]. done. Qed.

Lemma own_listener_type n e l : own_listener n e l → type l = "DOMContentLoaded".
Proof. intros [-> _]. done. Qed.

Lemma own_listener_once n e l : own_listener n e l → once l = false.
Proof. intros [-> _]. done. Qed.

Lemma dispatch_load_other g e σ :
  Inv σ → queues_empty σ → g ≠ e →
  queues_empty (dispatch_load g σ)
  ∧ height_of (dispatch_load g σ) e = height_of σ e.
Proof.
  intros HI Hq Hne. unfold dispatch_load.
  cut (Inv (foldl (λ σ' l, run_callback (invoke l) (drop_once g l σ')) σ
              (filter (λ l, type l = "DOMContentLoaded") (listeners_of σ g)))
       ∧ queues_empty (foldl (λ σ' l, run_callback (invoke l) (drop_once g l σ')) σ
              (filter (λ l, type l = "DOMContentLoaded") (listeners_of σ g)))
       ∧ height_of (foldl (λ σ' l, run_callback (invoke l) (drop_once g l σ')) σ
              (filter (λ l, type l = "DOMContentLoaded") (listeners_of σ g))) e
         = height_of σ e); [by intros (_ & ? & ?)|].
  apply (foldl_preserves
           (λ σ', Inv σ' ∧ queues_empty σ' ∧ height_of σ' e = height_of σ e)
           (λ l, captured_e (callback l) = g)); [| |done].
  - intros σ' l Hl (HI' & Hq' & Hh'). unfold run_callback, invoke. rewrite Hl.
    pose proof (Inv_drop_once g l σ' HI') as HI''.
    split; [by apply Inv_resizeIframe|]. split.
    + unfold queues_empty. rewrite resizeIframe_observers by apply HI''.
      unfold drop_once. by destruct (once l).
    + rewrite resizeIframe_height_ne by done. by rewrite height_of_drop_once.
  - apply Forall_forall. intros l [_ Hl]%list_elem_of_filter.
    destruct HI as (Hls & _). specialize (Hls g). rewrite Forall_forall in Hls.
    eapply own_listener_captured. by apply Hls.
Qed.

Lemma silent_step e ev σ :
  Inv σ → queues_empty σ → structural ev = false → loads e ev = false →
  queues_empty (step ev σ) ∧ height_of (step ev σ) e = height_of σ e.
Proof.
  intros HI Hq Hs Hl. destruct ev as [| | |name at_|at_|g h| |g|]; simpl in *;
    try discriminate.
  - by rewrite queue_mutation_record_ignored by (apply HI || done).
  - by rewrite queue_mutation_record_ignored by (apply HI || done).
  - split; [|apply height_of_inner_layout].
    unfold queues_empty. by rewrite observers_inner_layout.
  - unfold run_callback. rewrite initialize_run. simpl. split; [|done].
    apply Forall_app. split; [done|]. by apply Forall_singleton.
  - apply bool_decide_eq_false in Hl. by apply dispatch_load_other.
  - by rewrite notify_observers_quiet.
Qed.

Lemma silent_run e evs σ :
  Inv σ → queues_empty σ → silent_for e evs →
  height_of (run evs σ) e = height_of σ e.
Proof.
  intros HI Hq Hs. revert σ HI Hq.
  induction Hs as [|ev evs [Hs Hl] _ IH]; intros σ HI Hq; [done|].
  destruct (silent_step e ev σ HI Hq Hs Hl) as [Hq' Hh'].
  change (run (ev :: evs) σ) with (run evs (step ev σ)).
  rewrite IH; [done|by apply Inv_step|done].
Qed.

(** ** The load-completion event *)

Lemma drop_once_own n e g l σ : own_listener n e l → drop_once g l σ = σ.
Proof. intros Hl. unfold drop_once. by rewrite (own_listener_once _ _ _ Hl). Qed.

Lemma invoke_own_readable n e l h σ :
  own_listener n e l → scrollHeight_of σ e = Some h →
  scrollHeight_of (run_callback (invoke l) σ) e = Some h
  ∧ height_of (run_callback (invoke l) σ) e = Some (h + 100).
Proof.
  intros Hl Hh. unfold run_callback, invoke.
  rewrite (own_listener_captured _ _ _ Hl).
  destruct (resizeIframe_readable _ _ _ Hh) as (fr & Hfr & ->). simpl.
  split; [by rewrite scrollHeight_of_resized|apply height_of_resized].
Qed.

(** When the inner document of a readable frame finishes loading, the
    listeners the script put on its window resize that frame. *)
Lemma dispatch_load_resizes e h σ :
  Inv σ → listeners_of σ e ≠ [] → scrollHeight_of σ e = Some h →
  height_of (dispatch_load e σ) e = Some (h + 100).
Proof.
  intros (Hls & _) Hne Hh. specialize (Hls e). unfold dispatch_load.
  assert (Forall (own_listener (next_closure σ) e)
            (filter (λ l, type l = "DOMContentLoaded") (listeners_of σ e)))
    as Hown.
  { apply Forall_forall. intros l [_ Hl]%list_elem_of_filter.
    rewrite Forall_forall in Hls. by apply Hls. }
  destruct (filter _ (listeners_of σ e)) as [|l ls] eqn:Hf.
  { destruct (listeners_of σ e) as [|l0 ls0] eqn:Hl0; [done|].
    apply Forall_cons in Hls as [Hl0' _].
    assert (l0 ∈ filter (λ l, type l = "DOMContentLoaded") (l0 :: ls0)) as Hin.
    { apply list_elem_of_filter. split; [|by left].
      by apply (own_listener_type _ _ _ Hl0'). }
    rewrite Hf in Hin. by apply elem_of_nil in Hin. }
  apply Forall_cons in Hown as [Hl Hown]. simpl.
  rewrite (drop_once_own _ _ _ _ _ Hl).
  destruct (invoke_own_readable _ _ _ _ σ Hl Hh) as [Hh1 Hv1].
  cut (scrollHeight_of
         (foldl (λ σ' l', run_callback (invoke l') (drop_once e l' σ'))
            (run_callback (invoke l) σ) ls) e = Some h
       ∧ height_of
           (foldl (λ σ' l', run_callback (invoke l') (drop_once e l' σ'))
              (run_callback (invoke l) σ) ls) e = Some (h + 100));
    [by intros []|].
  apply (foldl_preserves
           (λ σ', scrollHeight_of σ' e = Some h ∧ height_of σ' e = Some (h + 100))
           (own_listener (next_closure σ) e)); [|done|done].
  intros σ' l' Hl' [Hh' _]. rewrite (drop_once_own _ _ _ _ _ Hl').
  by eapply invoke_own_readable.
Qed.

(** Firing the load event removes no listener: none was added with
    [once]. *)
Lemma listeners_of_dispatch_load g e σ :
  Inv σ → listeners_of (dispatch_load g σ) e = listeners_of σ e.
Proof.
  intros (Hok & _). unfold dispatch_load.
  apply (foldl_preserves (λ σ', listeners_of σ' e = listeners_of σ e)
           (λ l, once l = false)); [| |done].
  - intros σ' l Hl Heq. unfold drop_once. rewrite Hl.
    unfold run_callback, invoke, listeners_of.
    by rewrite resizeIframe_window.
  - apply Forall_forall. intros l [_ Hl]%list_elem_of_filter.
    specialize (Hok g). rewrite Forall_forall in Hok.
    eapply own_listener_once. by apply Hok.
Qed.

Lemma scrollHeight_of_inner_layout_set e h h' σ :
  scrollHeight_of σ e = Some h →
  scrollHeight_of (inner_layout e h' σ) e = Some h'.
Proof.
  intros (fr & w & Hfr & Hw & Hd)%scrollHeight_of_Some.
  unfold inner_layout. rewrite Hfr, Hw, Hd.
  unfold scrollHeight_of, window_of. simpl. by rewrite lookup_insert_eq.
Qed.

(** ** The first batch after initialization *)

Lemma readable_Forall σ l :
  Forall (λ e, is_Some (scrollHeight_of σ e)) l → readable σ l.
Proof. intros Hl e He. rewrite Forall_forall in Hl. by apply Hl. Qed.

(** The first batch delivered after [initialize], on a page with no
    observer before: the scan reaches the frames before the first
    unreadable one. *)
Lemma first_batch_reach σ at_ pre rest e :
  observers σ = [] → NoDup (iframes σ) → at_ ≠ OutsideBody →
  iframes σ = pre ++ rest → readable σ pre →
  (e ∈ pre →
   height_of (run [HostContentLoaded; ChildListMutation at_; NotifyObservers] σ) e
   = (λ h, h + 100) <$> scrollHeight_of σ e)
  ∧ (∀ x rest', rest = x :: rest' → scrollHeight_of σ x = None → e ∈ rest →
       height_of
         (run [HostContentLoaded; ChildListMutation at_; NotifyObservers] σ) e
       = height_of σ e).
Proof.
  intros Hobs Hnd Hat Hfs Hr. unfold run. simpl. unfold run_callback.
  rewrite initialize_run. simpl. rewrite Hobs. simpl.
  unfold notify_observers, queue_mutation_record. simpl.
  assert (enqueue {| mtype := ChildListRecord; target := at_ |} script_observer
          = with_queue [{| mtype := ChildListRecord; target := at_ |}]
              script_observer) as -> by (by destruct at_).
  erewrite notify_batch; [|reflexivity|done]. simpl. rewrite Hfs in *.
  match goal with
  | |- (_ → height_of (forEach _ _ ?σ').2 _ = _) ∧ _ => set (σ1 := σ')
  end.
  split.
  - intros He. by apply (forEach_scan_prefix pre rest σ1 e).
  - intros x rest' -> Hx He.
    destruct (forEach_scan_stop pre x rest' σ1) as (err & ->); [done..|].
    simpl. rewrite forEach_scan_height_notin; [done|].
    apply NoDup_app in Hnd as (_ & Hdisj & _). intros Hin. by apply (Hdisj e).
Qed.

(** A load event on a window without listeners does nothing. *)
Lemma dispatch_load_no_listener e σ :
  listeners_of σ e = [] → dispatch_load e σ = σ.
Proof. intros Hl. unfold dispatch_load. by rewrite Hl. Qed.

(** ** Outcomes of the unguarded reads *)

Lemma resizeIframe_null_window σ e :
  window_of σ e = None → resizeIframe e σ = (Throw TypeError, σ).
Proof.
  unfold window_of, resizeIframe, get_contentWindow. intros Hw.
  destruct (heap σ !! e) as [fr|] eqn:Hfr; simpl in Hw.
  - erewrite bind_Normal; [|by rewrite Hfr, Hw]. done.
  - erewrite bind_Throw; [done|]. by rewrite Hfr.
Qed.

Lemma resizeIframe_cross_origin σ e w :
  window_of σ e = Some w → document w = CrossOrigin →
  resizeIframe e σ = (Throw SecurityError, σ).
Proof.
  unfold window_of, resizeIframe. intros Hw Hd.
  destruct (heap σ !! e) as [fr|] eqn:Hfr; simpl in Hw; [|done].
  erewrite bind_Normal; [|by unfold get_contentWindow; rewrite Hfr, Hw].
  erewrite bind_Throw; [done|].
  unfold get_document, window_of. rewrite Hfr. simpl. by rewrite Hw, Hd.
Qed.

Lemma resizeIframe_null_body σ e w :
  window_of σ e = Some w → document w = Document None →
  resizeIframe e σ = (Throw TypeError, σ).
Proof.
  unfold window_of, resizeIframe. intros Hw Hd.
  destruct (heap σ !! e) as [fr|] eqn:Hfr; simpl in Hw; [|done].
  erewrite bind_Normal; [|by unfold get_contentWindow; rewrite Hfr, Hw].
  erewrite bind_Normal;
    [|by unfold get_document, window_of; rewrite Hfr; simpl; rewrite Hw, Hd].
  erewrite bind_Normal;
    [|by unfold get_body, window_of; rewrite Hfr; simpl; rewrite Hw, Hd].
  by erewrite bind_Throw.
Qed.

Lemma scrollHeight_of_window σ e w :
  window_of σ e = Some w →
  scrollHeight_of σ e
  = match document w with Document (Some h) => Some h | _ => None end.
Proof. intros Hw. unfold scrollHeight_of. by rewrite Hw. Qed.

(** ** The claims *)

(** C1: for a frame whose inner body has scroll height [H] with
    [0 ≤ H], [resizeIframe] returns normally and the frame's height is
    then [H + 100]; for [H = 300] the height is 400. *)
Theorem resizeIframe_height σ e H :
  scrollHeight_of σ e = Some H → 0 ≤ H →
  (resizeIframe e σ).1 = Normal ()
  ∧ height_of (resizeIframe e σ).2 e = Some (H + 100)
  ∧ (H = 300 → height_of (resizeIframe e σ).2 e = Some 400).
Proof.
  intros Hh _. destruct (resizeIframe_readable _ _ _ Hh) as (fr & _ & ->).
  simpl. rewrite height_of_resized. split; [done|]. split; [done|].
  by intros ->.
Qed.

Lemma resizeIframe_height_witness :
  (resizeIframe 0%nat (one_frame 300)).1 = Normal ()
  ∧ height_of (resizeIframe 0%nat (one_frame 300)).2 0%nat = Some 400.
Proof.
  destruct (resizeIframe_height (one_frame 300) 0%nat 300) as (Hn & _ & Hv);
    [reflexivity|lia|].
  split; [exact Hn|exact (Hv eq_refl)].
Defined.

(** C7: [resizeIframe] is idempotent. Called twice in succession on the
    same frame, the second call completes as the first did, leaves every
    frame as the first call left it, and for a readable frame both calls
    assign the same height, the scroll height plus 100. *)
Theorem resizeIframe_idempotent σ e :
  (resizeIframe e (resizeIframe e σ).2).1 = (resizeIframe e σ).1
  ∧ heap (resizeIframe e (resizeIframe e σ).2).2 = heap (resizeIframe e σ).2
  ∧ height_of (resizeIframe e (resizeIframe e σ).2).2 e
    = height_of (resizeIframe e σ).2 e
  ∧ (∀ H, scrollHeight_of σ e = Some H →
       height_of (resizeIframe e σ).2 e = Some (H + 100)
       ∧ height_of (resizeIframe e (resizeIframe e σ).2).2 e = Some (H + 100)).
Proof.
  destruct (scrollHeight_of σ e) as [h|] eqn:Hh.
  - destruct (resizeIframe_readable _ _ _ Hh) as (fr & Hfr & ->). simpl.
    assert (scrollHeight_of (resized e fr h σ) e = Some h) as Hh1
      by (by rewrite scrollHeight_of_resized).
    destruct (resizeIframe_readable _ _ _ Hh1) as (fr1 & Hfr1 & ->). simpl.
    rewrite heap_resized, lookup_insert_eq in Hfr1. injection Hfr1 as <-.
    rewrite !height_of_resized. split; [done|]. split.
    + by rewrite insert_insert_eq.
    + split; [done|]. by intros H [= <-].
  - destruct (resizeIframe_unreadable _ _ Hh) as (err & Hres).
    rewrite Hres. simpl. rewrite Hres. simpl.
    split; [done|]. split; [done|]. split; [done|]. intros H HH. congruence.
Qed.

Lemma resizeIframe_idempotent_witness :
  height_of (resizeIframe 0%nat (one_frame 300)).2 0%nat = Some 400
  ∧ height_of (resizeIframe 0%nat (resizeIframe 0%nat (one_frame 300)).2).2 0%nat
    = Some 400.
Proof.
  destruct (resizeIframe_idempotent (one_frame 300) 0%nat) as (_ & _ & _ & Hv).
  apply (Hv 300). reflexivity.
Defined.

(** C8: the height [resizeIframe] gives a frame depends on that frame's
    own inner body scroll height only. On two pages that agree on the
    scroll height of [e], whatever their other frames hold, the call
    completes alike and [e] ends with the same height; and the call
    changes the height of no other frame. *)
Theorem resizeIframe_noninterference σ1 σ2 e H :
  scrollHeight_of σ1 e = Some H → scrollHeight_of σ2 e = Some H →
  (resizeIframe e σ1).1 = (resizeIframe e σ2).1
  ∧ height_of (resizeIframe e σ1).2 e = height_of (resizeIframe e σ2).2 e
  ∧ (∀ e', e ≠ e' → height_of (resizeIframe e σ1).2 e' = height_of σ1 e').
Proof.
  intros H1 H2.
  destruct (resizeIframe_readable _ _ _ H1) as (fr1 & _ & Hr1).
  destruct (resizeIframe_readable _ _ _ H2) as (fr2 & _ & Hr2).
  split; [by rewrite Hr1, Hr2|]. split.
  - rewrite Hr1, Hr2. simpl. by rewrite !height_of_resized.
  - intros e' Hne. by apply resizeIframe_height_ne.
Qed.

Lemma resizeIframe_noninterference_witness :
  height_of (resizeIframe 0%nat (two_local 300 20)).2 0%nat
  = height_of (resizeIframe 0%nat (two_local 300 5000)).2 0%nat.
Proof.
  apply (resizeIframe_noninterference (two_local 300 20) (two_local 300 5000)
           0%nat 300); reflexivity.
Defined.

(** C9 (amended): for a frame whose inner body's scroll height reads
    0, [resizeIframe] writes the margin alone, 100; as scroll heights are
    not negative, every height it writes is the scroll height plus 100
    and so at least 100. A frame whose inner document has no body yet
    gets no height: the call throws a [TypeError], and whenever no scroll
    height can be read the call throws and leaves the page as it was. *)
Theorem resizeIframe_margin σ e :
  (scrollHeight_of σ e = Some 0 → height_of (resizeIframe e σ).2 e = Some 100)
  ∧ (∀ H, scrollHeight_of σ e = Some H → 0 ≤ H →
       height_of (resizeIframe e σ).2 e = Some (H + 100) ∧ 100 ≤ H + 100)
  ∧ (∀ w, window_of σ e = Some w → document w = Document None →
       resizeIframe e σ = (Throw TypeError, σ))
  ∧ (scrollHeight_of σ e = None → ∃ err, resizeIframe e σ = (Throw err, σ)).
Proof.
  split; [|split; [|split]].
  - intros Hh. destruct (resizeIframe_readable _ _ _ Hh) as (fr & _ & ->).
    apply height_of_resized.
  - intros H Hh HH. destruct (resizeIframe_readable _ _ _ Hh) as (fr & _ & ->).
    split; [apply height_of_resized|lia].
  - apply resizeIframe_null_body.
  - apply resizeIframe_unreadable.
Qed.

Lemma resizeIframe_margin_witness :
  height_of (resizeIframe 0%nat (one_frame 0)).2 0%nat = Some 100
  ∧ (height_of (resizeIframe 0%nat (one_frame 300)).2 0%nat = Some 400
     ∧ 100 ≤ 400)
  ∧ resizeIframe 0%nat bodyless_frame = (Throw TypeError, bodyless_frame).
Proof.
  split; [|split].
  - apply (resizeIframe_margin (one_frame 0) 0%nat). reflexivity.
  - apply (proj1 (proj2 (resizeIframe_margin (one_frame 300) 0%nat)) 300);
      [reflexivity|lia].
  - apply (proj1 (proj2 (proj2 (resizeIframe_margin bodyless_frame 0%nat)))
             {| document := Document None; listeners := [] |}); reflexivity.
Defined.

(** The claim C9 as stated fails: a frame whose inner document has no
    body yet, so with nothing rendered, does not get the margin alone as
    its height; the call throws and the frame has no height. *)
Lemma bodyless_frame_gets_no_height :
  iframes bodyless_frame = [0%nat]
  ∧ (resizeIframe 0%nat bodyless_frame).1 = Throw TypeError
  ∧ height_of (resizeIframe 0%nat bodyless_frame).2 0%nat = None
  ∧ height_of (resizeIframe 0%nat bodyless_frame).2 0%nat ≠ Some 100.
Proof. repeat split; try reflexivity. vm_compute. discriminate. Qed.

(** C10: [resizeIframe] reads the inner window and document without a
    guard. For a frame whose inner window is [null] it throws a
    [TypeError], for a cross-origin frame a [SecurityError], and whenever
    it throws the page, the frame's height included, is as before the
    call. *)
Theorem resizeIframe_throws_atomically σ e :
  (window_of σ e = None → resizeIframe e σ = (Throw TypeError, σ))
  ∧ (∀ w, window_of σ e = Some w → document w = CrossOrigin →
       resizeIframe e σ = (Throw SecurityError, σ))
  ∧ (∀ err σ', resizeIframe e σ = (Throw err, σ') →
       σ' = σ ∧ height_of σ' e = height_of σ e).
Proof.
  split; [|split].
  - unfold window_of, resizeIframe, get_contentWindow. intros Hw.
    destruct (heap σ !! e) as [fr|] eqn:Hfr; simpl in Hw.
    + erewrite bind_Normal; [|by rewrite Hfr, Hw]. done.
    + erewrite bind_Throw; [done|]. by rewrite Hfr.
  - unfold window_of, resizeIframe. intros w Hw Hd.
    destruct (heap σ !! e) as [fr|] eqn:Hfr; simpl in Hw; [|done].
    erewrite bind_Normal; [|by unfold get_contentWindow; rewrite Hfr, Hw].
    erewrite bind_Throw; [done|].
    unfold get_document, window_of. rewrite Hfr. simpl. by rewrite Hw, Hd.
  - intros err σ' [-> _]%resizeIframe_throw. done.
Qed.

Lemma resizeIframe_throws_atomically_witness :
  resizeIframe 0%nat windowless_frame = (Throw TypeError, windowless_frame)
  ∧ height_of (resizeIframe 0%nat windowless_frame).2 0%nat = Some 150
  ∧ resizeIframe 0%nat embed_then_local = (Throw SecurityError, embed_then_local).
Proof.
  assert (resizeIframe 0%nat windowless_frame = (Throw TypeError, windowless_frame))
    as Hres.
  { apply (resizeIframe_throws_atomically windowless_frame 0%nat). reflexivity. }
  split; [exact Hres|]. split.
  - apply (proj2 (proj2 (resizeIframe_throws_atomically windowless_frame 0%nat))
             TypeError). exact Hres.
  - apply (proj1 (proj2 (resizeIframe_throws_atomically embed_then_local 0%nat))
             {| document := CrossOrigin; listeners := [] |}); reflexivity.
Defined.

(** C2 (amended): the callback registers a load-completion listener
    once per scan, not once per element. In every mutation-batch scan it
    appends one more listener to those already on the inner window of
    each frame it reaches before the first unreadable one, made by a
    closure of that scan, so it is not merged with the listener of an
    earlier scan. The listener's callback resizes that same frame: when
    the inner document finishes loading, the frame's height becomes the
    scroll height the content then has plus 100, and the listeners stay
    on the window, as none is added with [once]. *)
Theorem each_scan_adds_a_listener frames history σ i o pre rest e :
  σ = run history (parsed frames) →
  observers σ !! i = Some o → queue o ≠ [] →
  iframes σ = pre ++ rest → readable σ pre → e ∈ pre →
  (∃ k, (next_closure σ ≤ k)%nat
        ∧ listeners_of (notify i σ) e
          = listeners_of σ e
            ++ [load_listener {| closure_id := k; captured_e := e |}]
        ∧ (∀ σ' h', scrollHeight_of σ' e = Some h' →
             height_of
               (run_callback
                  (invoke (load_listener {| closure_id := k; captured_e := e |}))
                  σ') e
             = Some (h' + 100)))
  ∧ (length (listeners_of (notify i σ) e) = S (length (listeners_of σ e)))
  ∧ (∀ h', height_of
             (run [InnerLayout e h'; FrameContentLoaded e] (notify i σ)) e
           = Some (h' + 100))
  ∧ listeners_of (step (FrameContentLoaded e) (notify i σ)) e
    = listeners_of (notify i σ) e.
Proof.
  intros -> Hi Hq Hfs Hr He.
  pose proof (Inv_run history _ (Inv_parsed frames)) as HI.
  set (σ := run history (parsed frames)) in *.
  assert (∃ k, (next_closure σ ≤ k)%nat
               ∧ listeners_of (notify i σ) e
                 = listeners_of σ e
                   ++ [load_listener {| closure_id := k; captured_e := e |}])
    as (k & Hk & Hls).
  { rewrite (notify_batch i o) by done. rewrite Hfs.
    apply (forEach_scan_listeners_prefix pre rest
             (with_observers (<[i:=with_queue [] o]> (observers σ)) σ) e);
      [rewrite <- Hfs; apply HI| |done|done].
    apply (listeners_ok_incl σ); [done..|apply HI]. }
  destruct (Hr e He) as [h Hh].
  assert (scrollHeight_of (notify i σ) e = Some h) as Hh1.
  { rewrite (notify_batch i o) by done. by rewrite forEach_scan_scrollHeight. }
  pose proof (Inv_notify i σ HI) as HI1.
  split; [|split; [|split]].
  - exists k. split; [done|]. split; [done|]. intros σ' h' Hh'.
    eapply (invoke_own_readable (S k)); [|done]. split; simpl; [done|lia].
  - rewrite Hls, length_app. simpl. lia.
  - intros h'.
    change (run [InnerLayout e h'; FrameContentLoaded e] (notify i σ))
      with (dispatch_load e (inner_layout e h' (notify i σ))).
    apply dispatch_load_resizes.
    + by apply Inv_inner_layout.
    + rewrite listeners_of_inner_layout, Hls. by intros [? ?]%app_eq_nil.
    + by apply (scrollHeight_of_inner_layout_set e h).
  - simpl. by apply listeners_of_dispatch_load.
Qed.

Lemma each_scan_adds_a_listener_witness :
  length (listeners_of
            (notify 0 (run [HostContentLoaded; ChildListMutation BelowBody;
                            NotifyObservers; ChildListMutation AtBody]
                         (one_frame 300))) 0%nat) = 2%nat
  ∧ height_of
      (run [InnerLayout 0%nat 900; FrameContentLoaded 0%nat]
         (notify 0 (run [HostContentLoaded; ChildListMutation BelowBody;
                         NotifyObservers; ChildListMutation AtBody]
                      (one_frame 300)))) 0%nat
    = Some 1000
  ∧ length (listeners_of
              (step (FrameContentLoaded 0%nat)
                 (notify 0 (run [HostContentLoaded; ChildListMutation BelowBody;
                                 NotifyObservers; ChildListMutation AtBody]
                              (one_frame 300)))) 0%nat) = 2%nat.
Proof.
  assert (readable
            (run [HostContentLoaded; ChildListMutation BelowBody; NotifyObservers;
                  ChildListMutation AtBody] (one_frame 300)) [0%nat]) as Hr.
  { apply readable_Forall. repeat constructor. by exists 300. }
  destruct (each_scan_adds_a_listener
              [(0%nat, (None, Some (Document (Some 300))))]
              [HostContentLoaded; ChildListMutation BelowBody; NotifyObservers;
               ChildListMutation AtBody]
              _ 0%nat
              {| registration := Some script_options;
                 queue := [{| mtype := ChildListRecord; target := AtBody |}] |}
              [0%nat] [] 0%nat eq_refl eq_refl ltac:(discriminate) eq_refl Hr
              ltac:(by left))
    as (_ & Hlen & Hload & Hkeep).
  split; [exact Hlen|]. split; [exact (Hload 900)|].
  exact (eq_trans (f_equal length Hkeep) Hlen).
Defined.

(** The claim C2 as stated fails: after two mutation batches the inner
    window of the one frame of the page carries two listeners. *)
Lemma two_batches_two_listeners :
  listeners_of
    (run (HostContentLoaded :: mutation_batch ++ mutation_batch) (one_frame 300))
    0%nat
  = [load_listener {| closure_id := 0; captured_e := 0%nat |};
     load_listener {| closure_id := 1; captured_e := 0%nat |}]
  ∧ ¬ (length (listeners_of
                 (run (HostContentLoaded :: mutation_batch ++ mutation_batch)
                    (one_frame 300)) 0%nat) ≤ 1)%nat.
Proof. split; [reflexivity|]. vm_compute. lia. Qed.

(** C3 (amended): [initialize] makes no scan. It returns normally, adds
    the observer, and leaves every frame, heights included, as it was;
    a load event that follows finds no listener to run. Frames already
    present are resized when the first mutation batch after it is
    delivered: those before the first frame, in document order, whose
    inner body cannot be read; that frame and the ones after it keep
    their height. *)
Theorem initialize_only_registers σ :
  (initialize σ).1 = Normal ()
  ∧ heap (step HostContentLoaded σ) = heap σ
  ∧ (∀ e, height_of (step HostContentLoaded σ) e = height_of σ e)
  ∧ observers (step HostContentLoaded σ) = observers σ ++ [script_observer]
  ∧ (∀ e, listeners_of σ e = [] →
       step (FrameContentLoaded e) (step HostContentLoaded σ)
       = step HostContentLoaded σ)
  ∧ (∀ at_ pre rest e,
       observers σ = [] → NoDup (iframes σ) → at_ ≠ OutsideBody →
       iframes σ = pre ++ rest → readable σ pre →
       (e ∈ pre →
        height_of
          (run [HostContentLoaded; ChildListMutation at_; NotifyObservers] σ) e
        = (λ h, h + 100) <$> scrollHeight_of σ e)
       ∧ (∀ x rest', rest = x :: rest' → scrollHeight_of σ x = None →
            e ∈ rest →
            height_of
              (run [HostContentLoaded; ChildListMutation at_; NotifyObservers] σ)
              e
            = height_of σ e)).
Proof.
  assert (step HostContentLoaded σ
          = with_observers (observers σ ++ [script_observer]) σ) as Hstep
    by (simpl; unfold run_callback; by rewrite initialize_run).
  rewrite Hstep, initialize_run.
  split; [done|]. split; [done|]. split; [done|]. split; [done|]. split.
  - intros e Hl. simpl. by apply dispatch_load_no_listener.
  - intros at_ pre rest e. apply first_batch_reach.
Qed.

Lemma initialize_only_registers_witness :
  height_of (step HostContentLoaded (one_frame 300)) 0%nat = None
  ∧ height_of
      (run [HostContentLoaded; FrameContentLoaded 0%nat] (one_frame 300)) 0%nat
    = None
  ∧ height_of (run (HostContentLoaded :: mutation_batch) (one_frame 300)) 0%nat
    = Some 400
  ∧ height_of (run (HostContentLoaded :: mutation_batch) embed_then_local) 1%nat
    = None.
Proof.
  destruct (initialize_only_registers (one_frame 300))
    as (_ & _ & Hh & _ & Hl & Hb).
  split; [exact (Hh 0%nat)|]. split.
  { change (run [HostContentLoaded; FrameContentLoaded 0%nat] (one_frame 300))
      with (step (FrameContentLoaded 0%nat)
              (step HostContentLoaded (one_frame 300))).
    rewrite (Hl 0%nat eq_refl). exact (Hh 0%nat). }
  split.
  - refine (proj1 (Hb BelowBody [0%nat] [] 0%nat eq_refl _ _ eq_refl _) _).
    + apply (bool_decide_unpack _). reflexivity.
    + discriminate.
    + apply readable_Forall. repeat constructor. by exists 300.
    + by left.
  - destruct (initialize_only_registers embed_then_local)
      as (_ & _ & _ & _ & _ & Hb').
    refine (proj2 (Hb' BelowBody [] [0%nat; 1%nat] 1%nat eq_refl _ _ eq_refl _)
              0%nat [1%nat] eq_refl eq_refl _).
    + apply (bool_decide_unpack _). reflexivity.
    + discriminate.
    + by intros x ?%elem_of_nil.
    + right. by left.
Defined.

(** The claim C3 as stated fails: a frame present when the host
    document is parsed, with a readable scroll height of 300, has no
    height after [initialize] has run. *)
Lemma initialize_resizes_nothing :
  iframes (one_frame 300) = [0%nat]
  ∧ scrollHeight_of (step HostContentLoaded (one_frame 300)) 0%nat = Some 300
  ∧ height_of (step HostContentLoaded (one_frame 300)) 0%nat = None
  ∧ height_of (step HostContentLoaded (one_frame 300)) 0%nat ≠ Some (300 + 100).
Proof. repeat split; try reflexivity. vm_compute. discriminate. Qed.

(** C4 (amended): on every delivered mutation batch the callback scans
    all frames of the document in document order, whatever the batch
    holds, and resizes each frame up to the first one whose inner body it
    cannot read; there the scan ends, and the frames from that one on
    keep their height. When every frame is readable, all are resized. *)
Theorem mutation_batch_rescans σ i o pre rest e :
  observers σ !! i = Some o → queue o ≠ [] →
  NoDup (iframes σ) → iframes σ = pre ++ rest → readable σ pre →
  (e ∈ pre → height_of (notify i σ) e = (λ h, h + 100) <$> scrollHeight_of σ e)
  ∧ (∀ x rest', rest = x :: rest' → scrollHeight_of σ x = None → e ∈ rest →
       height_of (notify i σ) e = height_of σ e).
Proof.
  intros Hi Hq Hnd Hfs Hr. rewrite (notify_batch i o) by done.
  rewrite Hfs in *. split.
  - intros He.
    by apply (forEach_scan_prefix pre rest
                (with_observers (<[i:=with_queue [] o]> (observers σ)) σ) e).
  - intros x rest' -> Hx He.
    destruct (forEach_scan_stop pre x rest'
                (with_observers (<[i:=with_queue [] o]> (observers σ)) σ))
      as (err & ->); [done..|]. simpl.
    rewrite forEach_scan_height_notin; [done|].
    apply NoDup_app in Hnd as (_ & Hdisj & _). intros Hin. by apply (Hdisj e).
Qed.

Lemma mutation_batch_rescans_witness :
  height_of
    (notify 0 (run [HostContentLoaded; ChildListMutation BelowBody]
                 (two_local 300 20))) 1%nat
  = Some 120
  ∧ height_of
      (notify 0 (run [HostContentLoaded; ChildListMutation BelowBody]
                   embed_then_local)) 1%nat
    = None.
Proof.
  split; [|refine (proj2 (mutation_batch_rescans
            (run [HostContentLoaded; ChildListMutation BelowBody] embed_then_local)
            0%nat
            {| registration := Some script_options;
               queue := [{| mtype := ChildListRecord; target := BelowBody |}] |}
            [] [0%nat; 1%nat] 1%nat eq_refl _ _ eq_refl _)
            0%nat [1%nat] eq_refl eq_refl _);
          [discriminate|by apply (bool_decide_unpack _)
          |by intros x ?%elem_of_nil|right; by left]].
  refine (proj1 (mutation_batch_rescans
            (run [HostContentLoaded; ChildListMutation BelowBody] (two_local 300 20))
            0%nat
            {| registration := Some script_options;
               queue := [{| mtype := ChildListRecord; target := BelowBody |}] |}
            [0%nat; 1%nat] [] 1%nat _ _ _ _ _) _).
  - reflexivity.
  - discriminate.
  - apply (bool_decide_unpack _). reflexivity.
  - reflexivity.
  - apply readable_Forall. repeat constructor; by eexists.
  - right. by left.
Defined.

(** The claim C4 as stated fails: with a cross-origin frame before it in
    the document, a present, readable frame is not resized by the scan
    of a mutation batch. *)
Lemma scan_stops_at_cross_origin_frame :
  iframes (run (HostContentLoaded :: mutation_batch) embed_then_local)
  = [0%nat; 1%nat]
  ∧ scrollHeight_of (run (HostContentLoaded :: mutation_batch) embed_then_local)
      1%nat = Some 300
  ∧ height_of (run (HostContentLoaded :: mutation_batch) embed_then_local) 1%nat
    = None
  ∧ height_of (run (HostContentLoaded :: mutation_batch) embed_then_local) 1%nat
    ≠ Some (300 + 100).
Proof. repeat split; try reflexivity. vm_compute. discriminate. Qed.

(** C5: when the inner content of a frame changes height while the host
    document has no structural mutation and the frame no
    load-completion event, [resizeIframe] is not called on it: after any
    such run, started with no record waiting for delivery, the frame's
    height is the one the last synchronization wrote. *)
Theorem height_stale_without_mutation_or_load frames history σ evs e :
  σ = run history (parsed frames) →
  queues_empty σ → silent_for e evs →
  height_of (run evs σ) e = height_of σ e.
Proof.
  intros -> Hq Hs. apply silent_run; [|done..].
  apply Inv_run, Inv_parsed.
Qed.

Lemma height_stale_without_mutation_or_load_witness :
  scrollHeight_of
    (run [InnerLayout 0%nat 500; AttributeMutation "style" BelowBody;
          NotifyObservers]
       (run (HostContentLoaded :: mutation_batch) (one_frame 200))) 0%nat
  = Some 500
  ∧ height_of
      (run [InnerLayout 0%nat 500; AttributeMutation "style" BelowBody;
            NotifyObservers]
         (run (HostContentLoaded :: mutation_batch) (one_frame 200))) 0%nat
    = Some 300.
Proof.
  split; [reflexivity|].
  refine (height_stale_without_mutation_or_load
            [(0%nat, (None, Some (Document (Some 200))))]
            (HostContentLoaded :: mutation_batch) _
            [InnerLayout 0%nat 500; AttributeMutation "style" BelowBody;
             NotifyObservers]
            0%nat eq_refl _ _).
  - repeat constructor.
  - repeat constructor.
Defined.

(** C6: every observer the script registers asks for child-list records
    of the body and its subtree and for nothing else. Attribute and
    character-data changes leave the page as it is, a child-list change
    at or below the body is queued for every observer, and the height
    written by [resizeIframe] queues nothing: once the observers are
    notified no record is waiting, and notifying them again does
    nothing. *)
Theorem observer_sees_child_list_only frames history σ :
  σ = run history (parsed frames) →
  Forall (λ o, registration o = Some script_options) (observers σ)
  ∧ (∀ r, interested script_options r = true
          ↔ mtype r = ChildListRecord ∧ target r ≠ OutsideBody)
  ∧ (∀ name at_, step (AttributeMutation name at_) σ = σ)
  ∧ (∀ at_, step (CharacterDataMutation at_) σ = σ)
  ∧ (∀ at_, at_ ≠ OutsideBody →
       observers (step (ChildListMutation at_) σ)
       = (λ o, with_queue
                 (queue o ++ [{| mtype := ChildListRecord; target := at_ |}]) o)
           <$> observers σ)
  ∧ (∀ e, observers (resizeIframe e σ).2 = observers σ)
  ∧ queues_empty (step NotifyObservers σ)
  ∧ step NotifyObservers (step NotifyObservers σ) = step NotifyObservers σ.
Proof.
  intros ->. pose proof (Inv_run history _ (Inv_parsed frames)) as HI.
  set (σ := run history (parsed frames)) in *.
  destruct HI as (Hls & Hobs & Hnd).
  split; [exact Hobs|]. split; [apply interested_script_options|].
  split; [intros; by apply queue_mutation_record_ignored|].
  split; [intros; by apply queue_mutation_record_ignored|].
  split.
  { intros at_ Hat. simpl. apply Forall_fmap_ext_1.
    eapply Forall_impl; [exact Hobs|]. intros o Ho. simpl.
    unfold enqueue. rewrite Ho. by destruct at_. }
  split; [intros; by apply resizeIframe_observers|].
  assert (queues_empty (step NotifyObservers σ)) as Hq
    by (by apply queues_empty_notify_observers).
  split; [done|]. by apply notify_observers_quiet.
Qed.

Lemma observer_sees_child_list_only_witness :
  step (AttributeMutation "height" BelowBody) (run [HostContentLoaded] (one_frame 300))
  = run [HostContentLoaded] (one_frame 300)
  ∧ observers (step (ChildListMutation BelowBody)
                 (run [HostContentLoaded] (one_frame 300)))
    = [{| registration := Some script_options;
          queue := [{| mtype := ChildListRecord; target := BelowBody |}] |}].
Proof.
  destruct (observer_sees_child_list_only
              [(0%nat, (None, Some (Document (Some 300))))] [HostContentLoaded]
              _ eq_refl) as (_ & _ & Ha & _ & Hc & _).
  split; [exact (Ha "height" BelowBody)|].
  etransitivity; [apply (Hc BelowBody); discriminate|reflexivity].
Defined.

(** * Further properties of the script *)

(** ** Outcomes of [resizeIframe] *)

(** X1: [resizeIframe] returns normally exactly when the inner body's
    scroll height can be read; it throws a [SecurityError] exactly for a
    cross-origin inner document, and a [TypeError] for an inner document
    without a body, leaving the page as it was. *)
Theorem resizeIframe_outcome σ e :
  ((resizeIframe e σ).1 = Normal () ↔ is_Some (scrollHeight_of σ e))
  ∧ ((resizeIframe e σ).1 = Throw SecurityError
     ↔ ∃ w, window_of σ e = Some w ∧ document w = CrossOrigin)
  ∧ (∀ w, window_of σ e = Some w → document w = Document None →
       resizeIframe e σ = (Throw TypeError, σ)).
Proof.
  split; [|split].
  - resize_cases σ e; simpl.
    + split; [by intros _; eexists|done].
    + split; [done|by intros [? ?]].
  - split.
    + destruct (window_of σ e) as [w|] eqn:Hw.
      * pose proof (scrollHeight_of_window _ _ _ Hw) as Hs.
        destruct (document w) as [|[h|]] eqn:Hd.
        -- intros _. by exists w.
        -- destruct (resizeIframe_readable _ _ _ Hs) as (fr & _ & ->). done.
        -- by rewrite (resizeIframe_null_body _ _ _ Hw Hd).
      * by rewrite (resizeIframe_null_window _ _ Hw).
    + intros (w & Hw & Hd). by rewrite (resizeIframe_cross_origin _ _ _ Hw Hd).
  - apply resizeIframe_null_body.
Qed.

Lemma resizeIframe_outcome_witness :
  resizeIframe 0%nat bodyless_frame = (Throw TypeError, bodyless_frame)
  ∧ (resizeIframe 0%nat (one_frame 300)).1 = Normal ()
  ∧ (resizeIframe 0%nat embed_then_local).1 = Throw SecurityError.
Proof.
  split; [|split].
  - apply (proj2 (proj2 (resizeIframe_outcome bodyless_frame 0%nat))
             {| document := Document None; listeners := [] |}); reflexivity.
  - apply (proj1 (resizeIframe_outcome (one_frame 300) 0%nat)). by exists 300.
  - apply (proj1 (proj2 (resizeIframe_outcome embed_then_local 0%nat))).
    by exists {| document := CrossOrigin; listeners := [] |}.
Defined.

(** X2: [resizeIframe e] writes nothing but the height of [e]: the
    document order, the closure counter, every frame's inner window
    (inner document and listeners) and every other frame stay as they
    were. *)
Theorem resizeIframe_writes_height_only σ e :
  iframes (resizeIframe e σ).2 = iframes σ
  ∧ next_closure (resizeIframe e σ).2 = next_closure σ
  ∧ (∀ e', window_of (resizeIframe e σ).2 e' = window_of σ e')
  ∧ (∀ e', e ≠ e' → heap (resizeIframe e σ).2 !! e' = heap σ !! e').
Proof.
  split; [apply resizeIframe_iframes|]. split; [apply resizeIframe_next_closure|].
  split; [intros e'; apply resizeIframe_window|].
  intros e' Hne. resize_cases σ e; [|done].
  simpl. by rewrite lookup_insert_ne.
Qed.

Lemma resizeIframe_writes_height_only_witness :
  heap (resizeIframe 0%nat (two_local 300 20)).2 !! 1%nat
  = heap (two_local 300 20) !! 1%nat.
Proof.
  apply (proj2 (proj2 (proj2
           (resizeIframe_writes_height_only (two_local 300 20) 0%nat)))).
  discriminate.
Defined.

(** ** Synchronized frames stay synchronized *)

Lemma synchronized_resizeIframe g e σ :
  synchronized σ e → synchronized (resizeIframe g σ).2 e.
Proof.
  intros (h0 & Hs & Hv). resize_cases σ g; [|by exists h0].
  exists h0. cbn [snd]. rewrite scrollHeight_of_resized by done. split; [done|].
  destruct (decide (g = e)) as [->|Hne].
  - rewrite height_of_resized. congruence.
  - by rewrite height_of_resized_ne.
Qed.

Lemma synchronized_scan_frame g e σ :
  synchronized σ e → synchronized (scan_frame g σ).2 e.
Proof.
  intros (h0 & Hs & Hv). scan_cases σ g; [|by exists h0].
  exists h0. cbn [snd]. rewrite scrollHeight_of_scanned by done. split; [done|].
  destruct (decide (g = e)) as [->|Hne].
  - rewrite height_of_scanned. congruence.
  - by rewrite height_of_scanned_ne.
Qed.

Lemma scrollHeight_of_drop_once g l σ e :
  scrollHeight_of (drop_once g l σ) e = scrollHeight_of σ e.
Proof.
  unfold drop_once. destruct (once l); [|done].
  unfold scrollHeight_of, window_of. simpl.
  destruct (decide (g = e)) as [<-|Hne].
  - rewrite lookup_alter_eq. destruct (heap σ !! g) as [fr|]; simpl; [|done].
    by destruct (contentWindow fr).
  - by rewrite lookup_alter_ne.
Qed.

Lemma synchronized_same_heap σ σ' e :
  heap σ' = heap σ → synchronized σ e → synchronized σ' e.
Proof.
  intros Hh (h & Hs & Hv). exists h.
  unfold scrollHeight_of, window_of, height_of in *. by rewrite Hh.
Qed.

Lemma synchronized_same_frame σ σ' e :
  heap σ' !! e = heap σ !! e → synchronized σ e → synchronized σ' e.
Proof.
  intros Hh (h & Hs & Hv). exists h.
  unfold scrollHeight_of, window_of, height_of in *. by rewrite Hh.
Qed.

Lemma heap_insert_frame_ne e' authored d σ e :
  e' ≠ e → heap (insert_frame e' authored d σ) !! e = heap σ !! e.
Proof.
  intros Hne. unfold insert_frame. case_bool_decide; [done|].
  simpl. by rewrite lookup_insert_ne.
Qed.

Lemma heap_remove_frame_ne e' σ e :
  e' ≠ e → heap (remove_frame e' σ) !! e = heap σ !! e.
Proof. intros Hne. unfold remove_frame. simpl. by rewrite lookup_alter_ne. Qed.

Lemma heap_inner_layout_ne e' h σ e :
  e' ≠ e → heap (inner_layout e' h σ) !! e = heap σ !! e.
Proof.
  intros Hne. unfold inner_layout.
  destruct (heap σ !! e') as [fr|]; [|done].
  destruct (contentWindow fr) as [w|]; [|done].
  destruct (document w) as [|[h'|]]; [done| |done].
  simpl. by rewrite lookup_insert_ne.
Qed.

Lemma synchronized_step ev e σ :
  touches e ev = false → synchronized σ e → synchronized (step ev σ) e.
Proof.
  intros Ht Hs. destruct ev as [e' a d at_|e' at_|at_|name at_|at_|e' h| |g|];
    simpl in *.
  - apply bool_decide_eq_false in Ht.
    eapply synchronized_same_frame; [|exact Hs].
    by apply heap_insert_frame_ne.
  - apply bool_decide_eq_false in Ht.
    eapply synchronized_same_frame; [|exact Hs].
    by apply heap_remove_frame_ne.
  - by apply (synchronized_same_heap σ).
  - by apply (synchronized_same_heap σ).
  - by apply (synchronized_same_heap σ).
  - apply bool_decide_eq_false in Ht.
    eapply synchronized_same_frame; [|exact Hs].
    by apply heap_inner_layout_ne.
  - unfold run_callback. rewrite initialize_run.
    by apply (synchronized_same_heap σ).
  - unfold dispatch_load.
    apply (foldl_preserves (λ σ', synchronized σ' e) (λ _, True));
      [|by apply Forall_true|done].
    intros σ' l _ Hs'. apply synchronized_resizeIframe.
    destruct Hs' as (h & Hh & Hv). exists h.
    by rewrite scrollHeight_of_drop_once, height_of_drop_once.
  - unfold notify_observers.
    apply (foldl_preserves (λ σ', synchronized σ' e) (λ _, True));
      [|by apply Forall_true|done].
    intros σ' i _ Hs'. unfold notify.
    destruct (observers σ' !! i) as [o|]; [|done].
    destruct (queue o) as [|r q]; [done|].
    unfold run_callback, observer_callback.
    erewrite bind_Normal by reflexivity.
    apply (forEach_preserves (λ σ'', synchronized σ'' e)).
    + intros x σ''. apply synchronized_scan_frame.
    + by apply (synchronized_same_heap σ').
Qed.

(** X3: nothing the script does makes a synchronized frame stale. On
    any page, a frame whose height is its scroll height plus 100 stays
    so through every run in which the frame itself is not inserted,
    removed or laid out anew: through mutation batches, load completions
    of any frame, initialization, and changes to other frames. *)
Theorem script_keeps_synchronized σ evs e :
  Forall (λ ev, touches e ev = false) evs →
  synchronized σ e → synchronized (run evs σ) e.
Proof.
  intros Hevs Hs. unfold run.
  apply (foldl_preserves (λ σ', synchronized σ' e)
           (λ ev, touches e ev = false)); [|done..].
  intros σ' ev Ht Hs'. by apply synchronized_step.
Qed.

Lemma script_keeps_synchronized_witness :
  synchronized
    (run [InnerLayout 1%nat 700; ChildListMutation AtBody; NotifyObservers;
          FrameContentLoaded 1%nat; RemoveFrame 1%nat BelowBody;
          NotifyObservers]
       (run (HostContentLoaded :: mutation_batch) (two_local 300 20))) 0%nat.
Proof.
  apply script_keeps_synchronized.
  - repeat constructor.
  - exists 300. split; reflexivity.
Defined.

(** ** A scan that cannot read the first frame *)

(** X4: when the script cannot read the inner body of the first frame
    of the document, a delivered mutation batch changes no frame at all:
    no height is written, no listener is added and no closure is
    made, however many readable frames follow. *)
Theorem unreadable_first_frame_blocks_scan σ i x rest :
  iframes σ = x :: rest → scrollHeight_of σ x = None →
  heap (notify i σ) = heap σ
  ∧ next_closure (notify i σ) = next_closure σ
  ∧ iframes (notify i σ) = iframes σ.
Proof.
  intros Hfs Hx. unfold notify.
  destruct (observers σ !! i) as [o|]; [|done].
  destruct (queue o) as [|r q]; [done|].
  unfold run_callback, observer_callback. erewrite bind_Normal by reflexivity.
  simpl. rewrite Hfs. simpl.
  destruct (scan_frame_unreadable
              (with_observers (<[i:=with_queue [] o]> (observers σ)) σ) x Hx)
    as (err & Hscan).
  by erewrite bind_Throw by exact Hscan.
Qed.

Lemma unreadable_first_frame_blocks_scan_witness :
  heap (notify 0 (run [HostContentLoaded; ChildListMutation BelowBody]
                    embed_then_local))
  = heap (run [HostContentLoaded; ChildListMutation BelowBody] embed_then_local).
Proof.
  apply (unreadable_first_frame_blocks_scan
           (run [HostContentLoaded; ChildListMutation BelowBody] embed_then_local)
           0%nat 0%nat [1%nat]); reflexivity.
Defined.

(** ** Scans append listeners *)

Lemma listeners_grow_scan_frame x e σ :
  listeners_ok σ →
  listeners_of σ e `prefix_of` listeners_of (scan_frame x σ).2 e.
Proof.
  intros Hok. scan_cases σ x; [|done]. cbn [snd].
  destruct (decide (x = e)) as [->|Hne].
  - rewrite listeners_of_scanned by done. by eexists.
  - by rewrite listeners_of_scanned_ne.
Qed.

Lemma listeners_grow_notify i e σ :
  Inv σ → listeners_of σ e `prefix_of` listeners_of (notify i σ) e.
Proof.
  intros (Hok & _). unfold notify.
  destruct (observers σ !! i) as [o|]; [|done].
  destruct (queue o) as [|r q]; [done|].
  unfold run_callback, observer_callback. erewrite bind_Normal by reflexivity.
  cut (listeners_ok
         (forEach (iframes σ) scan_frame
            (with_observers (<[i:=with_queue [] o]> (observers σ)) σ)).2
       ∧ listeners_of σ e `prefix_of`
         listeners_of
           (forEach (iframes σ) scan_frame
              (with_observers (<[i:=with_queue [] o]> (observers σ)) σ)).2 e);
    [by intros []|].
  apply (forEach_preserves
           (λ σ', listeners_ok σ'
                  ∧ listeners_of σ e `prefix_of` listeners_of σ' e)).
  - intros x σ' [Hok' Hpre]. split; [by apply scan_frame_listeners_ok|].
    etrans; [exact Hpre|]. by apply listeners_grow_scan_frame.
  - split; [|done]. by apply (listeners_ok_incl σ).
Qed.

(** ** Without the host's load event *)

Lemma inert_queue_mutation_record σ0 r σ :
  inert σ0 σ → queue_mutation_record r σ = σ.
Proof.
  intros (Ho & _). unfold queue_mutation_record. rewrite Ho. simpl.
  rewrite <- Ho. apply with_observers_id.
Qed.

Lemma inert_insert_frame σ0 e a d σ : inert σ0 σ → inert σ0 (insert_frame e a d σ).
Proof.
  intros (Ho & Hn & Hl & Hh). unfold insert_frame. case_bool_decide; [done|].
  split; [done|]. split; [done|]. split.
  - intros e'. unfold listeners_of, window_of. simpl.
    destruct (decide (e = e')) as [<-|Hne].
    + by rewrite lookup_insert_eq.
    + rewrite lookup_insert_ne by done. apply Hl.
  - intros e' fr0 Hfr0. destruct (Hh e' fr0 Hfr0) as (fr & Hfr & Hv). simpl.
    destruct (decide (e = e')) as [<-|Hne].
    + rewrite lookup_insert_eq, Hfr. by eexists.
    + rewrite lookup_insert_ne by done. by exists fr.
Qed.

Lemma inert_remove_frame σ0 e σ : inert σ0 σ → inert σ0 (remove_frame e σ).
Proof.
  intros (Ho & Hn & Hl & Hh). split; [done|]. split; [done|]. split.
  - intros e'. destruct (listeners_of (remove_frame e σ) e') as [|l ls] eqn:Hls;
      [done|].
    assert (l ∈ listeners_of σ e') as Hin.
    { apply (listeners_of_remove_frame e). rewrite Hls. by left. }
    rewrite Hl in Hin. by apply elem_of_nil in Hin.
  - intros e' fr0 Hfr0. destruct (Hh e' fr0 Hfr0) as (fr & Hfr & Hv). simpl.
    destruct (decide (e = e')) as [<-|Hne].
    + rewrite lookup_alter_eq, Hfr. by eexists.
    + rewrite lookup_alter_ne by done. by exists fr.
Qed.

Lemma inert_inner_layout σ0 e h σ : inert σ0 σ → inert σ0 (inner_layout e h σ).
Proof.
  intros (Ho & Hn & Hl & Hh).
  split; [by rewrite observers_inner_layout|].
  split; [by rewrite next_closure_inner_layout|].
  split; [intros e'; by rewrite listeners_of_inner_layout|].
  intros e' fr0 Hfr0. destruct (Hh e' fr0 Hfr0) as (fr & Hfr & Hv).
  unfold inner_layout.
  destruct (heap σ !! e) as [fr'|] eqn:Hfr'; [|by exists fr].
  destruct (contentWindow fr') as [w|]; [|by exists fr].
  destruct (document w) as [|[h'|]]; [by exists fr| |by exists fr].
  simpl. destruct (decide (e = e')) as [<-|Hne].
  - rewrite lookup_insert_eq. eexists. split; [done|]. simpl. congruence.
  - rewrite lookup_insert_ne by done. by exists fr.
Qed.

Lemma inert_step σ0 ev σ :
  ev ≠ HostContentLoaded → inert σ0 σ → inert σ0 (step ev σ).
Proof.
  intros Hev Hin. destruct ev as [e a d at_|e at_|at_|name at_|at_|e h| |g|];
    simpl.
  - rewrite (inert_queue_mutation_record σ0); by apply inert_insert_frame.
  - rewrite (inert_queue_mutation_record σ0); by apply inert_remove_frame.
  - by rewrite (inert_queue_mutation_record σ0).
  - by rewrite (inert_queue_mutation_record σ0).
  - by rewrite (inert_queue_mutation_record σ0).
  - by apply inert_inner_layout.
  - done.
  - unfold dispatch_load. destruct Hin as (Ho & Hn & Hl & Hh).
    rewrite Hl. done.
  - unfold notify_observers. destruct Hin as (Ho & Hn & Hl & Hh).
    rewrite Ho. done.
Qed.

Lemma inert_run σ0 evs σ :
  HostContentLoaded ∉ evs → inert σ0 σ → inert σ0 (run evs σ).
Proof.
  intros Hevs Hin. unfold run.
  apply (foldl_preserves (inert σ0) (λ ev, ev ≠ HostContentLoaded)); [| |done].
  - intros σ' ev. apply inert_step.
  - apply Forall_forall. intros ev Hev ->. done.
Qed.

Lemma inert_parsed frames : inert (parsed frames) (parsed frames).
Proof.
  split; [done|]. split; [done|]. split.
  - intros e. pose proof (Inv_parsed frames) as (Hok & _). specialize (Hok e).
    destruct (listeners_of (parsed frames) e) as [|l ls]; [done|].
    apply Forall_cons in Hok as [[_ Hlt] _]. simpl in Hlt. lia.
  - intros e fr0 Hfr0. by exists fr0.
Qed.

(** X6: everything the script does hangs on the host document's
    ["DOMContentLoaded"]. In a run from a parsed document in which that
    event does not occur, whatever else happens (frames inserted,
    removed or laid out, mutations, notifications, frames finishing to
    load), no observer is registered, no closure is made, no listener is
    added, and every frame of the document keeps its height. *)
Theorem inert_without_initialize frames evs :
  HostContentLoaded ∉ evs →
  observers (run evs (parsed frames)) = []
  ∧ next_closure (run evs (parsed frames)) = 0%nat
  ∧ (∀ e, listeners_of (run evs (parsed frames)) e = [])
  ∧ (∀ e, is_Some (heap (parsed frames) !! e) →
       height_of (run evs (parsed frames)) e = height_of (parsed frames) e).
Proof.
  intros Hevs.
  destruct (inert_run (parsed frames) evs (parsed frames) Hevs
              (inert_parsed frames)) as (Ho & Hn & Hl & Hh).
  split; [done|]. split; [done|]. split; [done|].
  intros e [fr0 Hfr0]. destruct (Hh e fr0 Hfr0) as (fr & Hfr & Hv).
  unfold height_of. rewrite Hfr, Hfr0. simpl. by rewrite Hv.
Qed.

Lemma inert_without_initialize_witness :
  height_of
    (run [ChildListMutation BelowBody; NotifyObservers; InnerLayout 0%nat 500;
          FrameContentLoaded 0%nat;
          InsertFrame 1%nat None (Document (Some 40)) AtBody; NotifyObservers]
       (one_frame 300)) 0%nat
  = None.
Proof.
  refine (proj2 (proj2 (proj2 (inert_without_initialize
            [(0%nat, (None, Some (Document (Some 300))))]
            [ChildListMutation BelowBody; NotifyObservers; InnerLayout 0%nat 500;
             FrameContentLoaded 0%nat;
             InsertFrame 1%nat None (Document (Some 40)) AtBody; NotifyObservers]
            _))) 0%nat _).
  - intros Hin. repeat (apply elem_of_cons in Hin as [Hin|Hin]; [discriminate|]).
    by apply elem_of_nil in Hin.
  - by eexists.
Defined.

(** ** What a scan depends on *)

Lemma same_frames_scrollHeight σ1 σ2 e :
  same_frames σ1 σ2 → scrollHeight_of σ1 e = scrollHeight_of σ2 e.
Proof. intros (Hh & _). unfold scrollHeight_of, window_of. by rewrite Hh. Qed.

Lemma same_frames_scanned σ1 σ2 e fr w h :
  same_frames σ1 σ2 → same_frames (scanned e fr w h σ1) (scanned e fr w h σ2).
Proof.
  intros (Hh & Hf & Hn). unfold scanned, scan_closure. split; [|split]; simpl.
  - by rewrite Hh, Hn.
  - done.
  - by rewrite Hn.
Qed.

Lemma same_frames_forEach_scan l σ1 σ2 :
  same_frames σ1 σ2 →
  same_frames (forEach l scan_frame σ1).2 (forEach l scan_frame σ2).2.
Proof.
  revert σ1 σ2. induction l as [|x l IH]; intros σ1 σ2 Hsame; [done|].
  pose proof (same_frames_scrollHeight σ1 σ2 x Hsame) as Hs. simpl.
  destruct (scrollHeight_of σ1 x) as [h|] eqn:Hh1; symmetry in Hs.
  - destruct (scan_frame_readable _ _ _ Hh1) as (fr1 & w1 & Hfr1 & Hw1 & Hscan1).
    destruct (scan_frame_readable _ _ _ Hs) as (fr2 & w2 & Hfr2 & Hw2 & Hscan2).
    erewrite !bind_Normal by (exact Hscan1 || exact Hscan2).
    destruct Hsame as (Hheap & Hrest). rewrite Hheap in Hfr1.
    assert (fr2 = fr1) as -> by congruence.
    assert (w2 = w1) as -> by congruence.
    apply IH, same_frames_scanned. by split.
  - destruct (scan_frame_unreadable _ _ Hh1) as (err1 & Hscan1).
    destruct (scan_frame_unreadable _ _ Hs) as (err2 & Hscan2).
    erewrite (bind_Throw _ _ σ1) by exact Hscan1.
    by erewrite (bind_Throw _ _ σ2) by exact Hscan2.
Qed.

(** X7: what a delivered mutation batch does to the frames depends only
    on the frames: the callback uses neither the records of the batch
    nor the observer. Two pages with the same frames, document order and
    closure counter, each with a non-empty queue at some observer, have
    the same frames, heights and listeners after the delivery. *)
Theorem batch_contents_do_not_matter σ1 σ2 i1 i2 o1 o2 :
  same_frames σ1 σ2 →
  observers σ1 !! i1 = Some o1 → queue o1 ≠ [] →
  observers σ2 !! i2 = Some o2 → queue o2 ≠ [] →
  same_frames (notify i1 σ1) (notify i2 σ2).
Proof.
  intros Hsame Hi1 Hq1 Hi2 Hq2.
  rewrite (notify_batch i1 o1), (notify_batch i2 o2) by done.
  destruct Hsame as (Hh & Hf & Hn). rewrite Hf.
  apply same_frames_forEach_scan. by split.
Qed.

Lemma batch_contents_do_not_matter_witness :
  heap (notify 0 (run [HostContentLoaded; ChildListMutation BelowBody]
                    (two_local 300 20)))
  = heap (notify 0 (run [HostContentLoaded; ChildListMutation AtBody;
                         AttributeMutation "class" BelowBody;
                         ChildListMutation BelowBody; ChildListMutation AtBody]
                      (two_local 300 20))).
Proof.
  refine (proj1 (batch_contents_do_not_matter
            (run [HostContentLoaded; ChildListMutation BelowBody]
               (two_local 300 20))
            (run [HostContentLoaded; ChildListMutation AtBody;
                  AttributeMutation "class" BelowBody;
                  ChildListMutation BelowBody; ChildListMutation AtBody]
               (two_local 300 20))
            0%nat 0%nat
            {| registration := Some script_options;
               queue := [{| mtype := ChildListRecord; target := BelowBody |}] |}
            {| registration := Some script_options;
               queue := [{| mtype := ChildListRecord; target := AtBody |};
                         {| mtype := ChildListRecord; target := BelowBody |};
                         {| mtype := ChildListRecord; target := AtBody |}] |}
            _ eq_refl _ eq_refl _)).
  - repeat split.
  - discriminate.
  - discriminate.
Defined.

(** ** The top-level statement and the host's load event *)

Lemma fold_initialize (ls : list HandlerListener) σ :
  foldl (λ σ' (_ : HandlerListener), run_callback initialize σ') σ ls
  = with_observers (observers σ ++ replicate (length ls) script_observer) σ.
Proof.
  revert σ. induction ls as [|l ls IH]; intros σ; simpl.
  - by rewrite app_nil_r, with_observers_id.
  - rewrite IH. unfold run_callback. rewrite initialize_run.
    unfold with_observers. simpl. by rewrite <- app_assoc.
Qed.

Lemma filter_all {A : Type} (P : A → Prop) `{∀ x, Decision (P x)} (l : list A) :
  Forall P l → filter P l = l.
Proof.
  induction 1 as [|x l Hx Hl IH]; [done|].
  rewrite filter_cons_True by done. by rewrite IH.
Qed.

(** Handlers added by the script: made by [handler_listener], from
    function objects allocated before [n]. *)
Lemma add_handler_fresh n ls :
  Forall (λ l, (handler_id l < n)%nat) ls →
  add_handler (handler_listener n) ls = ls ++ [handler_listener n].
Proof.
  intros Hls. unfold add_handler.
  destruct (existsb _ ls) eqn:Hex; [|done].
  apply existsb_exists in Hex as (l & Hl & Hsame).
  rewrite Forall_forall in Hls. apply list_elem_of_In, Hls in Hl.
  unfold same_handler in Hsame. simpl in Hsame.
  apply andb_prop in Hsame as [Hsame _]. apply andb_prop in Hsame as [_ Hid].
  apply bool_decide_eq_true in Hid. lia.
Qed.

Lemma script_runs k h :
  Forall (λ l, (handler_id l < next_handler h)%nat) (window_listeners h) →
  host_run (replicate k ScriptRuns) h
  = {| page := page h;
       window_listeners :=
         window_listeners h ++ (handler_listener <$> seq (next_handler h) k);
       next_handler := (next_handler h + k)%nat;
       content_loaded := content_loaded h |}.
Proof.
  revert h. induction k as [|k IH]; intros h Hh.
  - simpl. rewrite app_nil_r, Nat.add_0_r. by destruct h.
  - change (host_run (replicate (S k) ScriptRuns) h)
      with (host_run (replicate k ScriptRuns) (script h)).
    rewrite IH.
    + simpl. rewrite add_handler_fresh by done.
      rewrite <- app_assoc. simpl. f_equal. lia.
    + simpl. rewrite add_handler_fresh by done. apply Forall_app. split.
      * eapply Forall_impl; [exact Hh|]. simpl. intros; lia.
      * apply Forall_singleton. simpl. lia.
Qed.

(** X8: every execution of the script adds a handler of its own to the
    host window, as each evaluates a new arrow function. When the
    script has run [k] times before the host document's
    ["DOMContentLoaded"], the event registers [k] observers on the
    body, each with the script's options; run once, it does what
    [initialize] does. *)
Theorem script_included_k_times σ k :
  page (host_run (replicate k ScriptRuns ++ [Dom HostContentLoaded])
          (fresh_host σ))
  = with_observers (observers σ ++ replicate k script_observer) σ
  ∧ page (host_run [ScriptRuns; Dom HostContentLoaded] (fresh_host σ))
    = step HostContentLoaded σ.
Proof.
  split.
  - unfold host_run at 1. rewrite foldl_app.
    change (foldl (λ h' hev, host_step hev h') (fresh_host σ)
              (replicate k ScriptRuns))
      with (host_run (replicate k ScriptRuns) (fresh_host σ)).
    rewrite script_runs by constructor. simpl.
    unfold fire_content_loaded. simpl. rewrite fold_initialize.
    rewrite filter_all.
    + by rewrite length_fmap, length_seq.
    + apply Forall_fmap, Forall_true. done.
  - simpl. unfold run_callback. by rewrite initialize_run.
Qed.

Lemma host_run_loaded hevs h :
  content_loaded h = true →
  page (host_run hevs h) = run (page_events hevs) (page h).
Proof.
  revert h. induction hevs as [|hev hevs IH]; intros h Hh; [done|].
  change (host_run (hev :: hevs) h) with (host_run hevs (host_step hev h)).
  destruct hev as [|ev].
  - rewrite IH by done. done.
  - destruct ev; simpl;
      try (rewrite IH by done; done).
    unfold fire_content_loaded. rewrite Hh. by rewrite IH.
Qed.

Lemma page_events_no_load hevs : HostContentLoaded ∉ page_events hevs.
Proof.
  unfold page_events. intros (hev & _ & Hev)%list_elem_of_omap.
  destruct hev as [|[]]; done.
Qed.

(** X9: a script that runs only after the host document's
    ["DOMContentLoaded"] has fired never starts. Whatever follows the
    event (executions of the script, mutations, notifications, frames
    loading), the handler is not called: no observer is registered, no
    listener is added and every frame of the document keeps its
    height. *)
Theorem script_after_content_loaded_is_inert frames hevs :
  observers
    (page (host_run (Dom HostContentLoaded :: hevs) (fresh_host (parsed frames))))
  = []
  ∧ (∀ e, listeners_of
            (page (host_run (Dom HostContentLoaded :: hevs)
                     (fresh_host (parsed frames)))) e = [])
  ∧ (∀ e, is_Some (heap (parsed frames) !! e) →
       height_of
         (page (host_run (Dom HostContentLoaded :: hevs)
                  (fresh_host (parsed frames)))) e
       = height_of (parsed frames) e).
Proof.
  change (host_run (Dom HostContentLoaded :: hevs) (fresh_host (parsed frames)))
    with (host_run hevs
            {| page := parsed frames; window_listeners := []; next_handler := 0;
               content_loaded := true |}).
  rewrite host_run_loaded by done. cbn [page].
  destruct (inert_run (parsed frames) (page_events hevs) (parsed frames)
              (page_events_no_load hevs) (inert_parsed frames))
    as (Ho & Hn & Hl & Hh).
  split; [done|]. split; [done|].
  intros e [fr0 Hfr0]. destruct (Hh e fr0 Hfr0) as (fr & Hfr & Hv).
  unfold height_of. rewrite Hfr, Hfr0. simpl. by rewrite Hv.
Qed.

Lemma script_after_content_loaded_is_inert_witness :
  height_of
    (page (host_run [Dom HostContentLoaded; ScriptRuns;
                     Dom (ChildListMutation BelowBody); Dom NotifyObservers;
                     Dom HostContentLoaded; Dom NotifyObservers]
             (fresh_host (one_frame 300)))) 0%nat
  = None.
Proof.
  refine (proj2 (proj2 (script_after_content_loaded_is_inert
            [(0%nat, (None, Some (Document (Some 300))))]
            [ScriptRuns; Dom (ChildListMutation BelowBody); Dom NotifyObservers;
             Dom HostContentLoaded; Dom NotifyObservers])) 0%nat _).
  by eexists.
Defined.

(** X10: for a document that runs the script once before its
    ["DOMContentLoaded"], the page goes through the run in which
    [initialize] is called once, at that event: later executions of the
    script and later occurrences of the event change nothing. *)
Theorem script_included_once σ hevs :
  page (host_run (ScriptRuns :: Dom HostContentLoaded :: hevs) (fresh_host σ))
  = run (HostContentLoaded :: page_events hevs) σ.
Proof.
  change (host_run (ScriptRuns :: Dom HostContentLoaded :: hevs) (fresh_host σ))
    with (host_run hevs
            (host_step (Dom HostContentLoaded) (script (fresh_host σ)))).
  by rewrite host_run_loaded.
Qed.

(** ** Several observers *)

Lemma scrollHeight_of_notify i σ e :
  scrollHeight_of (notify i σ) e = scrollHeight_of σ e.
Proof.
  unfold notify. destruct (observers σ !! i) as [o|]; [|done].
  destruct (queue o) as [|r q]; [done|].
  unfold run_callback, observer_callback. erewrite bind_Normal by reflexivity.
  by rewrite forEach_scan_scrollHeight.
Qed.

Lemma iframes_notify i σ : iframes (notify i σ) = iframes σ.
Proof.
  unfold notify. destruct (observers σ !! i) as [o|]; [|done].
  destruct (queue o) as [|r q]; [done|].
  unfold run_callback, observer_callback. erewrite bind_Normal by reflexivity.
  by rewrite forEach_scan_iframes.
Qed.

Lemma notify_quiet_at i o σ :
  observers σ !! i = Some o → queue o = [] → notify i σ = σ.
Proof. intros Hi Hq. unfold notify. by rewrite Hi, Hq. Qed.

Lemma notify_adds_one_listener i o e σ :
  Inv σ → readable σ (iframes σ) → e ∈ iframes σ →
  observers σ !! i = Some o → queue o ≠ [] →
  length (listeners_of (notify i σ) e) = S (length (listeners_of σ e)).
Proof.
  intros (Hok & _ & Hnd) Hr He Hi Hq. rewrite (notify_batch i o) by done.
  destruct (forEach_scan_listeners (iframes σ)
              (with_observers (<[i:=with_queue [] o]> (observers σ)) σ) e)
    as (k & _ & ->); [done| |done|done|].
  - by apply (listeners_ok_incl σ).
  - rewrite length_app, Nat.add_1_r. reflexivity.
Qed.

Lemma notify_prefix_count σ k e :
  Inv σ → readable σ (iframes σ) → e ∈ iframes σ →
  (k ≤ length (observers σ))%nat →
  Inv (foldl (λ σ' i, notify i σ') σ (seq 0 k))
  ∧ iframes (foldl (λ σ' i, notify i σ') σ (seq 0 k)) = iframes σ
  ∧ readable (foldl (λ σ' i, notify i σ') σ (seq 0 k)) (iframes σ)
  ∧ (∀ j, (k ≤ j)%nat →
       observers (foldl (λ σ' i, notify i σ') σ (seq 0 k)) !! j
       = observers σ !! j)
  ∧ length (listeners_of (foldl (λ σ' i, notify i σ') σ (seq 0 k)) e)
    = (length (listeners_of σ e) + pending (take k (observers σ)))%nat.
Proof.
  intros HI Hr He. induction k as [|k IH]; intros Hk.
  { simpl. split; [done|]. split; [done|]. split; [done|]. split; [done|].
    unfold pending. rewrite take_0, filter_nil. simpl. lia. }
  rewrite seq_S, foldl_app. simpl.
  destruct IH as (HIk & Hfs & Hrk & Hobs & Hlen); [lia|].
  set (σk := foldl (λ σ' i, notify i σ') σ (seq 0 k)) in *.
  destruct (lookup_lt_is_Some_2 (observers σ) k) as [o Ho]; [lia|].
  assert (observers σk !! k = Some o) as Hok by (by rewrite Hobs).
  split; [by apply Inv_notify|]. split; [by rewrite iframes_notify|].
  split; [intros x Hx; rewrite scrollHeight_of_notify; by apply Hrk|].
  split.
  { intros j Hj. rewrite (observers_notify k o) by (done || apply HIk).
    rewrite list_lookup_insert_ne by lia. apply Hobs. lia. }
  rewrite (take_S_r _ _ o) by done. unfold pending in *.
  rewrite filter_app, length_app.
  destruct (queue o) as [|r q] eqn:Hq.
  - rewrite (notify_quiet_at k o) by done.
    rewrite filter_cons_False by (by rewrite Hq; intros []).
    simpl. lia.
  - rewrite (notify_adds_one_listener k o); [|done|by rewrite Hfs
                                             |by rewrite Hfs|done|by rewrite Hq].
    rewrite filter_cons_True by (by rewrite Hq). simpl. lia.
Qed.

(** X11: a notification calls the callback once for every observer
    with a batch waiting, and every call scans the whole document. On a
    page reached from a parsed document on which every frame is
    readable, one notification adds to the inner window of each frame
    as many listeners as there are such observers. *)
Theorem notification_adds_listener_per_observer frames history σ e :
  σ = run history (parsed frames) →
  readable σ (iframes σ) → e ∈ iframes σ →
  length (listeners_of (step NotifyObservers σ) e)
  = (length (listeners_of σ e) + pending (observers σ))%nat.
Proof.
  intros -> Hr He.
  pose proof (Inv_run history _ (Inv_parsed frames)) as HI.
  set (σ := run history (parsed frames)) in *.
  destruct (notify_prefix_count σ (length (observers σ)) e HI Hr He)
    as (_ & _ & _ & _ & Hlen); [done|].
  rewrite take_ge in Hlen by done. exact Hlen.
Qed.

Lemma notification_adds_listener_per_observer_witness :
  length (listeners_of
            (step NotifyObservers
               (page (host_run [ScriptRuns; ScriptRuns; Dom HostContentLoaded;
                                Dom (ChildListMutation BelowBody)]
                        (fresh_host (one_frame 300))))) 0%nat)
  = 2%nat.
Proof.
  refine (notification_adds_listener_per_observer
            [(0%nat, (None, Some (Document (Some 300))))]
            [HostContentLoaded; HostContentLoaded; ChildListMutation BelowBody]
            _ 0%nat eq_refl _ _).
  - apply readable_Forall. repeat constructor. by exists 300.
  - by left.
Defined.

(** ** Frames out of the document *)

Lemma window_of_same_frame σ σ' e :
  heap σ' !! e = heap σ !! e → window_of σ' e = window_of σ e.
Proof. intros Hh. unfold window_of. by rewrite Hh. Qed.

Lemma height_of_same_frame σ σ' e :
  heap σ' !! e = heap σ !! e → height_of σ' e = height_of σ e.
Proof. intros Hh. unfold height_of. by rewrite Hh. Qed.

Lemma scan_frame_window_ne σ x e :
  x ≠ e → window_of (scan_frame x σ).2 e = window_of σ e.
Proof. intros Hne. scan_cases σ x; [by apply window_of_scanned_ne|done]. Qed.

Lemma detached_notify i e σ :
  detached σ e →
  detached (notify i σ) e ∧ height_of (notify i σ) e = height_of σ e.
Proof.
  intros [He Hw]. unfold detached. rewrite iframes_notify. unfold notify.
  destruct (observers σ !! i) as [o|]; [|done].
  destruct (queue o) as [|r q]; [done|].
  unfold run_callback, observer_callback. erewrite bind_Normal by reflexivity.
  simpl. split; [split; [done|]|].
  - etrans; [|exact Hw].
    apply (forEach_unchanged (λ σ', window_of σ' e) (λ x, x ≠ e) (iframes σ)
             scan_frame
             (with_observers (<[i:=with_queue [] o]> (observers σ)) σ)).
    + intros x σ' Hx. by apply scan_frame_window_ne.
    + apply Forall_forall. intros x Hx ->. done.
  - by rewrite forEach_scan_height_notin.
Qed.

Lemma window_of_drop_once_None g l σ e :
  window_of σ e = None → window_of (drop_once g l σ) e = None.
Proof.
  unfold drop_once. destruct (once l); [|done].
  unfold window_of. simpl. destruct (decide (g = e)) as [<-|Hne].
  - rewrite lookup_alter_eq. destruct (heap σ !! g) as [fr|]; simpl; [|done].
    by intros ->.
  - by rewrite lookup_alter_ne.
Qed.

Lemma detached_dispatch_load g e σ :
  Inv σ → detached σ e →
  detached (dispatch_load g σ) e
  ∧ height_of (dispatch_load g σ) e = height_of σ e.
Proof.
  intros (Hok & _) [He Hw]. unfold dispatch_load.
  destruct (decide (g = e)) as [->|Hne].
  { unfold listeners_of. rewrite Hw. done. }
  cut (iframes (foldl (λ σ' l, run_callback (invoke l) (drop_once g l σ')) σ
          (filter (λ l, type l = "DOMContentLoaded") (listeners_of σ g)))
       = iframes σ
       ∧ window_of (foldl (λ σ' l, run_callback (invoke l) (drop_once g l σ')) σ
          (filter (λ l, type l = "DOMContentLoaded") (listeners_of σ g))) e
         = None
       ∧ height_of (foldl (λ σ' l, run_callback (invoke l) (drop_once g l σ')) σ
          (filter (λ l, type l = "DOMContentLoaded") (listeners_of σ g))) e
         = height_of σ e).
  { intros (Hf & ? & ?). unfold detached. by rewrite Hf. }
  apply (foldl_preserves
           (λ σ', iframes σ' = iframes σ ∧ window_of σ' e = None
                  ∧ height_of σ' e = height_of σ e)
           (λ l, captured_e (callback l) = g)); [| |done].
  - intros σ' l Hl (Hf' & Hw' & Hh'). unfold run_callback, invoke. rewrite Hl.
    split; [|split].
    + rewrite resizeIframe_iframes. unfold drop_once. by destruct (once l).
    + rewrite resizeIframe_window. by apply window_of_drop_once_None.
    + rewrite resizeIframe_height_ne by done. by rewrite height_of_drop_once.
  - apply Forall_forall. intros l [_ Hl]%list_elem_of_filter.
    specialize (Hok g). rewrite Forall_forall in Hok.
    eapply own_listener_captured. by apply Hok.
Qed.

Lemma detached_step ev e σ :
  Inv σ → inserts e ev = false → detached σ e →
  detached (step ev σ) e ∧ height_of (step ev σ) e = height_of σ e.
Proof.
  intros HI Hev [He Hw].
  destruct ev as [e' a d at_|e' at_|at_|name at_|at_|e' h| |g|]; simpl in *.
  - apply bool_decide_eq_false in Hev.
    pose proof (heap_insert_frame_ne e' a d σ e Hev) as Hh.
    split; [split|].
    + simpl. unfold insert_frame. case_bool_decide; [done|]. simpl.
      intros [?|?%list_elem_of_singleton]%elem_of_app; done.
    + rewrite <- Hw. by apply window_of_same_frame.
    + by apply height_of_same_frame.
  - split; [split|].
    + simpl. by intros [_ ?]%list_elem_of_filter.
    + unfold window_of in *. simpl. destruct (decide (e' = e)) as [->|Hne].
      * rewrite lookup_alter_eq. by destruct (heap σ !! e).
      * by rewrite lookup_alter_ne.
    + unfold height_of. simpl. destruct (decide (e' = e)) as [->|Hne].
      * rewrite lookup_alter_eq. by destruct (heap σ !! e).
      * by rewrite lookup_alter_ne.
  - done.
  - done.
  - done.
  - split; [split|].
    + by rewrite iframes_inner_layout.
    + pose proof (window_of_inner_layout e' h σ e) as Hl. rewrite Hw in Hl.
      by destruct (window_of (inner_layout e' h σ) e).
    + apply height_of_inner_layout.
  - unfold run_callback. by rewrite initialize_run.
  - by apply detached_dispatch_load.
  - unfold notify_observers.
    cut (Inv (foldl (λ σ' i, notify i σ') σ (seq 0 (length (observers σ))))
         ∧ detached (foldl (λ σ' i, notify i σ') σ
                       (seq 0 (length (observers σ)))) e
         ∧ height_of (foldl (λ σ' i, notify i σ') σ
                        (seq 0 (length (observers σ)))) e = height_of σ e);
      [by intros (_ & ? & ?)|].
    apply (foldl_preserves
             (λ σ', Inv σ' ∧ detached σ' e ∧ height_of σ' e = height_of σ e)
             (λ _, True)); [|by apply Forall_true|done].
    intros σ' i _ (HI' & Hd' & Hh').
    destruct (detached_notify i e σ' Hd') as [Hd'' Hh''].
    split; [by apply Inv_notify|]. split; [done|]. by rewrite Hh''.
Qed.

(** X12: a frame that is out of the document and has no inner window is
    left alone. On any page reached from a parsed document, through
    every run in which the frame is not inserted again, no scan and no
    listener of another frame changes its height, although closures made
    for it may still exist. *)
Theorem detached_frame_left_alone frames history σ evs e :
  σ = run history (parsed frames) →
  detached σ e →
  Forall (λ ev, inserts e ev = false) evs →
  height_of (run evs σ) e = height_of σ e.
Proof.
  intros -> Hd Hevs.
  pose proof (Inv_run history _ (Inv_parsed frames)) as HI.
  set (σ := run history (parsed frames)) in *.
  cut (Inv (run evs σ) ∧ detached (run evs σ) e
       ∧ height_of (run evs σ) e = height_of σ e); [by intros (_ & _ & ?)|].
  unfold run at 1 2 3.
  apply (foldl_preserves
           (λ σ', Inv σ' ∧ detached σ' e ∧ height_of σ' e = height_of σ e)
           (λ ev, inserts e ev = false)); [|done..].
  intros σ' ev Hev (HI' & Hd' & Hh').
  destruct (detached_step ev e σ' HI' Hev Hd') as [Hd'' Hh''].
  split; [by apply Inv_step|]. split; [done|]. by rewrite Hh''.
Qed.

Lemma detached_frame_left_alone_witness :
  height_of
    (run [InsertFrame 2%nat None (Document (Some 50)) AtBody; NotifyObservers;
          FrameContentLoaded 1%nat; InnerLayout 1%nat 9;
          FrameContentLoaded 0%nat]
       (run [HostContentLoaded; ChildListMutation AtBody; NotifyObservers;
             RemoveFrame 1%nat AtBody]
          (two_local 300 20))) 1%nat
  = Some 120.
Proof.
  refine (detached_frame_left_alone
            [(0%nat, (None, Some (Document (Some 300))));
             (1%nat, (None, Some (Document (Some 20))))]
            [HostContentLoaded; ChildListMutation AtBody; NotifyObservers;
             RemoveFrame 1%nat AtBody]
            _ _ 1%nat eq_refl _ _).
  - split; [|reflexivity].
    intros [?|[]%elem_of_nil]%elem_of_cons. discriminate.
  - repeat constructor.
Defined.

(** ** A frame inserted into the document *)

Lemma synchronized_notify i e σ :
  synchronized σ e → synchronized (notify i σ) e.
Proof.
  intros Hs. unfold notify.
  destruct (observers σ !! i) as [o|]; [|done].
  destruct (queue o) as [|r q]; [done|].
  unfold run_callback, observer_callback. erewrite bind_Normal by reflexivity.
  apply (forEach_preserves (λ σ', synchronized σ' e)).
  - intros x σ'. apply synchronized_scan_frame.
  - by apply (synchronized_same_heap σ).
Qed.

(** The page after a readable frame has been put at the end of a
    document whose frames are all readable. *)
Lemma inserted_frame_page frames history σ e a h at_ :
  σ = run history (parsed frames) →
  observers σ ≠ [] → readable σ (iframes σ) → e ∉ iframes σ →
  at_ ≠ OutsideBody →
  Inv (step (InsertFrame e a (Document (Some h)) at_) σ)
  ∧ iframes (step (InsertFrame e a (Document (Some h)) at_) σ) = iframes σ ++ [e]
  ∧ readable (step (InsertFrame e a (Document (Some h)) at_) σ) (iframes σ ++ [e])
  ∧ scrollHeight_of (step (InsertFrame e a (Document (Some h)) at_) σ) e = Some h
  ∧ ∃ o os, observers (step (InsertFrame e a (Document (Some h)) at_) σ) = o :: os
            ∧ queue o ≠ [].
Proof.
  intros -> Hobs Hr He Hat.
  pose proof (Inv_run history _ (Inv_parsed frames)) as HI.
  set (σ := run history (parsed frames)) in *.
  split; [by apply Inv_step|]. simpl. unfold insert_frame.
  rewrite bool_decide_eq_false_2 by done. simpl.
  assert (scrollHeight_of
            (queue_mutation_record {| mtype := ChildListRecord; target := at_ |}
               (with_iframes (iframes σ ++ [e])
                  (with_heap
                     (<[e:={| height :=
                                match heap σ !! e with
                                | Some fr => height fr
                                | None => a
                                end;
                              contentWindow :=
                                Some {| document := Document (Some h);
                                        listeners := [] |} |}]> (heap σ)) σ)))
            e = Some h) as Hsh.
  { unfold scrollHeight_of, window_of. simpl. by rewrite lookup_insert_eq. }
  split; [done|]. split; [|split; [done|]].
  - intros x [Hx|Hx%list_elem_of_singleton]%elem_of_app;
      [|subst x; by eexists].
    assert (e ≠ x) by (by intros ->).
    unfold scrollHeight_of, window_of. simpl. rewrite lookup_insert_ne by done.
    by apply Hr.
  - destruct (observers σ) as [|o os] eqn:Hos; [done|].
    destruct HI as (_ & Hok & _). unfold observers_ok in Hok. rewrite Hos in Hok.
    apply Forall_cons in Hok as [Ho _].
    exists (enqueue {| mtype := ChildListRecord; target := at_ |} o),
      (enqueue {| mtype := ChildListRecord; target := at_ |} <$> os).
    split; [done|]. unfold enqueue. rewrite Ho.
    destruct at_; [| |done]; simpl; by intros [? ?]%app_eq_nil.
Qed.

(** X13: a same-origin frame inserted into the body is resized by the
    scan of the next notification, and again when its inner document
    finishes loading. On a page reached from a parsed document after
    [initialize], with every frame readable, inserting a frame whose
    inner body has scroll height [h] and notifying the observers leaves
    its height at [h + 100]; if the content then grows to [h'] and the
    frame's load completes, its height is [h' + 100]. *)
Theorem inserted_frame_is_resized frames history σ e a h h' at_ :
  σ = run history (parsed frames) →
  observers σ ≠ [] → readable σ (iframes σ) → e ∉ iframes σ →
  at_ ≠ OutsideBody →
  height_of
    (run [InsertFrame e a (Document (Some h)) at_; NotifyObservers] σ) e
  = Some (h + 100)
  ∧ height_of
      (run [InsertFrame e a (Document (Some h)) at_; NotifyObservers;
            InnerLayout e h'; FrameContentLoaded e] σ) e
    = Some (h' + 100).
Proof.
  intros Hσ Hobs Hr He Hat.
  destruct (inserted_frame_page frames history σ e a h at_ Hσ Hobs Hr He Hat)
    as (HI1 & Hfs1 & Hr1 & Hsh1 & o & os & Hos1 & Hq).
  change (run [InsertFrame e a (Document (Some h)) at_; NotifyObservers] σ)
    with (notify_observers (step (InsertFrame e a (Document (Some h)) at_) σ)).
  change (run [InsertFrame e a (Document (Some h)) at_; NotifyObservers;
               InnerLayout e h'; FrameContentLoaded e] σ)
    with (dispatch_load e
            (inner_layout e h'
               (notify_observers
                  (step (InsertFrame e a (Document (Some h)) at_) σ)))).
  set (σ1 := step (InsertFrame e a (Document (Some h)) at_) σ) in *.
  (* the first observer's scan *)
  assert (Inv (notify 0 σ1) ∧ synchronized (notify 0 σ1) e
          ∧ listeners_of (notify 0 σ1) e ≠ []
          ∧ scrollHeight_of (notify 0 σ1) e = Some h) as Hfirst.
  { assert (observers σ1 !! 0%nat = Some o) as Hi by (by rewrite Hos1).
    rewrite <- Hfs1 in Hr1.
    assert (e ∈ iframes σ1) as He1
      by (rewrite Hfs1; apply elem_of_app; right; by left).
    split; [by apply Inv_notify|]. split; [|split].
    - exists h. rewrite scrollHeight_of_notify. split; [done|].
      rewrite (notify_batch 0 o) by done.
      pose proof (forEach_scan_prefix (iframes σ1) []
                    (with_observers (<[0%nat:=with_queue [] o]> (observers σ1)) σ1)
                    e) as Hpre.
      rewrite app_nil_r in Hpre. rewrite Hpre; [|apply HI1|done|done].
      change (scrollHeight_of (with_observers _ σ1) e)
        with (scrollHeight_of σ1 e). by rewrite Hsh1.
    - intros Hnil.
      pose proof (notify_adds_one_listener 0 o e σ1 HI1 Hr1 He1 Hi Hq) as Hlen.
      by rewrite Hnil in Hlen.
    - by rewrite scrollHeight_of_notify. }
  (* the other observers' scans *)
  assert (Inv (notify_observers σ1) ∧ synchronized (notify_observers σ1) e
          ∧ listeners_of (notify_observers σ1) e ≠ []
          ∧ scrollHeight_of (notify_observers σ1) e = Some h)
    as (HI2 & Hs2 & Hl2 & Hsh2).
  { unfold notify_observers. rewrite Hos1. simpl.
    apply (foldl_preserves
             (λ σ', Inv σ' ∧ synchronized σ' e ∧ listeners_of σ' e ≠ []
                    ∧ scrollHeight_of σ' e = Some h) (λ _, True));
      [|by apply Forall_true|done].
    intros σ' i _ (HI' & Hs' & Hl' & Hsh').
    split; [by apply Inv_notify|]. split; [by apply synchronized_notify|].
    split; [|by rewrite scrollHeight_of_notify].
    destruct (listeners_grow_notify i e σ' HI') as [k Hk]. rewrite Hk.
    by intros [? ?]%app_eq_nil. }
  split.
  - destruct Hs2 as (h0 & Hh0 & Hv). congruence.
  - apply dispatch_load_resizes.
    + by apply Inv_inner_layout.
    + by rewrite listeners_of_inner_layout.
    + apply scrollHeight_of_Some in Hsh2 as (fr & w & Hfr & Hw & Hd).
      unfold inner_layout. rewrite Hfr, Hw, Hd.
      unfold scrollHeight_of, window_of. simpl. by rewrite lookup_insert_eq.
Qed.

Lemma inserted_frame_is_resized_witness :
  height_of
    (run [InsertFrame 1%nat None (Document (Some 40)) AtBody; NotifyObservers]
       (run [HostContentLoaded] (one_frame 300))) 1%nat
  = Some 140
  ∧ height_of
      (run [InsertFrame 1%nat None (Document (Some 40)) AtBody; NotifyObservers;
            InnerLayout 1%nat 900; FrameContentLoaded 1%nat]
         (run [HostContentLoaded] (one_frame 300))) 1%nat
    = Some 1000.
Proof.
  refine (inserted_frame_is_resized
            [(0%nat, (None, Some (Document (Some 300))))] [HostContentLoaded]
            _ 1%nat None 40 900 AtBody eq_refl _ _ _ _).
  - discriminate.
  - apply readable_Forall. repeat constructor. by exists 300.
  - intros [?|[]%elem_of_nil]%elem_of_cons. discriminate.
  - discriminate.
Defined.
